(** * Drive permissions: access resolution, metadata gate and share listings

    A shallow embedding of [drive/api/permissions.py].  The database tables
    the module queries are lists of rows, the dictionaries it returns are
    finite maps keyed by column name, and the one function that both raises
    and writes ([get_entity_with_permissions]) runs in a small state and
    error monad. *)

From Stdlib Require Import ZArith Ascii Lia.
From stdpp Require Import base option list strings gmap.

Open Scope string_scope.
Open Scope Z_scope.

(** ** Values and dictionaries *)

(** A cell of a row returned with [as_dict]: SQL NULL / Python [None], an
    integer (Check, Int and Datetime columns) or a string. *)
Inductive value :=
  | VNone
  | VInt (z : Z)
  | VStr (s : string).

#[global] Instance value_eq_dec : EqDecision value.
Proof. solve_decision. Defined.

Abbreviation dict := (gmap string value).

(** Python truthiness. *)
Definition truthy_int (z : Z) : bool := negb (z =? 0).

Definition truthy_str (s : option string) : bool :=
  match s with
  | None => false
  | Some s => negb (bool_decide (s = ""))
  end.

(** [if d:] for a value that is [None]/[False] or a dictionary. *)
Definition truthy_dict (d : option dict) : bool :=
  match d with
  | None => false
  | Some d => negb (bool_decide (d = ∅))
  end.

(** [a | b] on dictionaries: the keys of [b] win. *)
Definition dict_or (a b : dict) : dict := b ∪ a.

(** ** Tables *)

Module DriveEntity.
Record row := {
  name : string;
  title : string;
  owner : string;
  is_group : Z;
  is_active : Z;
  modified : Z;
  creation : Z;
  file_size : Z;
  mime_type : option string;
  file_ext : option string;
  parent_drive_entity : option string;
  allow_comments : Z;
  allow_download : Z;
  color : option string;
  document : option string
}.
End DriveEntity.

Module DriveDocShare.
Record row := {
  name : string;
  share_doctype : string;
  share_name : string;
  user_doctype : option string;
  user_name : option string;
  read : Z;
  write : Z;
  share : Z;
  everyone : Z;
  public : Z
}.
End DriveDocShare.

Module UserGroupMember.
Record row := {
  name : string;
  parent : string;
  user : string
}.
End UserGroupMember.

Module DriveFavourite.
Record row := {
  entity : string;
  user : string
}.
End DriveFavourite.

Module User.
Record row := {
  email : string;
  full_name : option string;
  user_image : option string
}.
End User.

#[global] Instance DriveEntity_eq_dec : EqDecision DriveEntity.row.
Proof. solve_decision. Defined.
#[global] Instance DriveDocShare_eq_dec : EqDecision DriveDocShare.row.
Proof. solve_decision. Defined.
#[global] Instance UserGroupMember_eq_dec : EqDecision UserGroupMember.row.
Proof. solve_decision. Defined.

(** A row of the two share listings: the selected Drive Entity columns are
    read off [row_entity]; the Drive DocShare columns are NULL when the left
    join found no share; [row_full_name] and [row_user_image] are selected by
    [get_shared_by_me] only. *)
Record shared_row := {
  row_entity : DriveEntity.row;
  row_full_name : option string;
  row_user_image : option string;
  row_read : option Z;
  row_write : option Z;
  row_everyone : option Z;
  row_share : option Z;
  is_favourite : option string
}.

(** ** Exceptions *)

Inductive exn :=
  | PermissionError (msg : string)
  | ValidationError (msg : string)
  | DoesNotExistError
  | IndexError
  | DatabaseError.

Inductive result (A : Type) :=
  | Ok (a : A)
  | Raise (e : exn).
Arguments Ok {A} a.
Arguments Raise {A} e.

(** ** The site: database, session and framework services

    [has_permission] and [get_ancestors_of] are Frappe's;
    [get_doc_content] is [drive.api.files.get_doc_content], taken as given.
    The last two fields are the choices the SQL engine makes: the row of a
    GROUP BY group whose values stand for the columns that are not
    aggregated, and the row order ORDER BY produces ([None]: the query is
    rejected, e.g. for an unknown column). *)
Record site := {
  session_user : string;
  tabDriveEntity : list DriveEntity.row;
  tabDriveDocShare : list DriveDocShare.row;
  tabUserGroupMember : list UserGroupMember.row;
  tabDriveFavourite : list DriveFavourite.row;
  tabUser : list User.row;
  (* frappe.has_permission(doctype, doc, ptype, user) *)
  has_permission : string → string → string → string → bool;
  (* frappe.utils.nestedset.get_ancestors_of(doctype, entity) *)
  get_ancestors_of : string → DriveEntity.row → list string;
  get_doc_content : string → dict;
  any_value : ∀ A : Type, A → list A → A;
  orderby : string → bool → list shared_row → option (list shared_row)
}.

(** What every SQL engine guarantees about the first choice: the row that
    stands for a group is one of its rows. *)
Definition any_value_ok (s : site) : Prop :=
  ∀ (A : Type) (x : A) (l : list A), any_value s A x l ∈ x :: l.

(** ** SQL fragments *)

(** Three-valued comparisons and connectives; a row passes ON or WHERE when
    the condition is TRUE. *)
Definition sql_eq {A} `{EqDecision A} (x y : option A) : option bool :=
  match x, y with
  | Some a, Some b => Some (bool_decide (a = b))
  | _, _ => None
  end.

Definition sql_ne {A} `{EqDecision A} (x y : option A) : option bool :=
  negb <$> sql_eq x y.

Definition sql_and (x y : option bool) : option bool :=
  match x, y with
  | Some false, _ | _, Some false => Some false
  | Some true, Some true => Some true
  | _, _ => None
  end.

Definition sql_or (x y : option bool) : option bool :=
  match x, y with
  | Some true, _ | _, Some true => Some true
  | Some false, Some false => Some false
  | _, _ => None
  end.

Definition sql_true (c : option bool) : bool :=
  match c with
  | Some true => true
  | _ => false
  end.

Definition inner_join {A B} (l : list A) (r : list B) (on : A → B → option bool)
  : list (A * B) :=
  l ≫= λ a, pair a <$> filter (λ b, sql_true (on a b)) r.

Definition left_join {A B} (l : list A) (r : list B) (on : A → B → option bool)
  : list (A * option B) :=
  l ≫= λ a,
    match filter (λ b, sql_true (on a b)) r with
    | [] => [(a, None)]
    | bs => (λ b, (a, Some b)) <$> bs
    end.

Definition where_ {A} (cond : A → option bool) (rows : list A) : list A :=
  filter (λ r, sql_true (cond r)) rows.

(** The distinct keys of a list, in the order they are first met. *)
Fixpoint distinct (seen keys : list string) : list string :=
  match keys with
  | [] => []
  | k :: keys =>
      if bool_decide (k ∈ seen) then distinct seen keys
      else k :: distinct (k :: seen) keys
  end.

(** GROUP BY [key]: one output row per group; [select] receives the row
    standing for the plain columns and the whole group for aggregates. *)
Definition groupby {A B} (s : site) (key : A → string) (select : A → list A → B)
    (rows : list A) : list B :=
  omap (λ k, match filter (λ r, key r = k) rows with
             | [] => None
             | x :: g => Some (select (any_value s A x g) (x :: g))
             end)
       (distinct [] (key <$> rows)).

(** [max(...)] over a non-empty sequence of integers. *)
Definition max_list (x : Z) (l : list Z) : Z := foldl Z.max x l.

(** ** [frappe.db.get_value] on Drive DocShare

    The first row that satisfies the filters, restricted to the columns
    [read] and [write]; [None] when no row does. *)
Definition read_write (r w : Z) : dict :=
  <["read" := VInt r]> (<["write" := VInt w]> ∅).

Definition docshare_read_write (d : DriveDocShare.row) : dict :=
  read_write (DriveDocShare.read d) (DriveDocShare.write d).

Definition get_value (s : site) (filters : DriveDocShare.row → bool) : option dict :=
  docshare_read_write <$> List.find filters (tabDriveDocShare s).

(** The three filter dictionaries [get_user_access] passes. *)
Definition user_filters (entity_name user : string) (d : DriveDocShare.row) : bool :=
  bool_decide (DriveDocShare.share_doctype d = "Drive Entity")
  && bool_decide (DriveDocShare.share_name d = entity_name)
  && bool_decide (DriveDocShare.user_doctype d = Some "User")
  && bool_decide (DriveDocShare.user_name d = Some user).

Definition everyone_filters (entity_name : string) (d : DriveDocShare.row) : bool :=
  bool_decide (DriveDocShare.share_name d = entity_name)
  && (DriveDocShare.everyone d =? 1).

Definition public_filters (entity_name : string) (d : DriveDocShare.row) : bool :=
  bool_decide (DriveDocShare.share_name d = entity_name)
  && (DriveDocShare.public d =? 1).

(** ** [user_group_entity_access] *)

Definition group_shares (s : site) (entity_name : string) : list DriveDocShare.row :=
  groupby s (λ '(_, m), UserGroupMember.name m) (λ '(d, _) _, d)
    (where_ (λ '(d, m),
               sql_and (sql_eq (Some (DriveDocShare.share_name d)) (Some entity_name))
                       (sql_eq (Some (UserGroupMember.user m)) (Some (session_user s))))
       (inner_join (tabDriveDocShare s) (tabUserGroupMember s)
          (λ d m, sql_eq (Some (UserGroupMember.parent m)) (DriveDocShare.user_name d)))).

(** [None] stands for the [False] returned when the query has no row. *)
Definition user_group_entity_access (s : site) (entity_name : string) : option dict :=
  match group_shares s entity_name with
  | [] => None
  | d :: ds =>
      let max_read := max_list (DriveDocShare.read d) (DriveDocShare.read <$> ds) in
      let max_write := max_list (DriveDocShare.write d) (DriveDocShare.write <$> ds) in
      Some (read_write max_read max_write)
  end.

(** ** [get_user_access] *)

Definition get_user_access (s : site) (entity_name : string) : dict :=
  if negb (bool_decide (session_user s = "Guest")) then
    let user_access := get_value s (user_filters entity_name (session_user s)) in
    if truthy_dict user_access then default ∅ user_access else
    let group_access := user_group_entity_access s entity_name in
    if truthy_dict group_access then default ∅ group_access else
    let everyone_access := get_value s (everyone_filters entity_name) in
    if truthy_dict everyone_access then default ∅ everyone_access else
    let public_access := get_value s (public_filters entity_name) in
    if truthy_dict public_access then default ∅ public_access else
    read_write 0 0
  else
    let public_access := get_value s (public_filters entity_name) in
    if truthy_dict public_access then default ∅ public_access else
    read_write 0 0.

(** ** [get_general_access] *)

Definition get_general_access (s : site) (entity_name : string) : list DriveDocShare.row :=
  groupby s DriveDocShare.name (λ d _, d)
    (where_ (λ d,
               sql_and (sql_eq (Some (DriveDocShare.share_name d)) (Some entity_name))
                       (sql_or (sql_eq (Some (DriveDocShare.everyone d)) (Some 1))
                               (sql_eq (Some (DriveDocShare.public d)) (Some 1))))
       (tabDriveDocShare s)).

(** ** The share listings *)

(** [order_by.split()[0]] and [order_by.endswith("desc")]. *)
Definition is_space (c : ascii) : bool :=
  let n := nat_of_ascii c in
  ((9 <=? n) && (n <=? 13) || (28 <=? n) && (n <=? 32))%nat.

Fixpoint take_word (s : string) : string :=
  match s with
  | EmptyString => EmptyString
  | String c s' => if is_space c then EmptyString else String c (take_word s')
  end.

Fixpoint first_word (s : string) : option string :=
  match s with
  | EmptyString => None
  | String c s' => if is_space c then first_word s' else Some (take_word s)
  end.

Definition endswith (s suffix : string) : bool :=
  let n := String.length s in
  let k := String.length suffix in
  (k <=? n)%nat && bool_decide (String.substring (n - k) k s = suffix).

(** [x.parent_drive_entity not in names] *)
Definition not_in_names (parent : option string) (names : list string) : bool :=
  match parent with
  | None => true
  | Some p => negb (bool_decide (p ∈ names))
  end.

Abbreviation row_name x := (DriveEntity.name (row_entity x)).
Abbreviation row_owner x := (DriveEntity.owner (row_entity x)).
Abbreviation row_parent x := (DriveEntity.parent_drive_entity (row_entity x)).

(** The query of [get_shared_by_me], before [run]. *)
Definition shared_by_me_query (s : site) : list shared_row :=
  let user := Some (session_user s) in
  let j1 := left_join (tabDriveEntity s) (tabDriveDocShare s)
              (λ e d, sql_and
                        (sql_eq (Some (DriveDocShare.share_name d)) (Some (DriveEntity.name e)))
                        (sql_eq (Some (DriveEntity.owner e)) user)) in
  let j2 := left_join j1 (tabUser s)
              (λ '(e, _) u, sql_eq (Some (DriveEntity.owner e)) (Some (User.email u))) in
  let j3 := left_join j2 (tabDriveFavourite s)
              (λ '(e, _, _) f, sql_and
                        (sql_eq (Some (DriveFavourite.entity f)) (Some (DriveEntity.name e)))
                        (sql_eq (Some (DriveFavourite.user f)) user)) in
  groupby s (λ '(e, _, _, _), DriveEntity.name e)
    (λ '(e, d, u, f) _,
       {| row_entity := e;
          row_full_name := u ≫= User.full_name;
          row_user_image := u ≫= User.user_image;
          row_read := DriveDocShare.read <$> d;
          row_write := DriveDocShare.write <$> d;
          row_everyone := DriveDocShare.everyone <$> d;
          row_share := DriveDocShare.share <$> d;
          is_favourite := DriveFavourite.entity <$> f |})
    (where_ (λ '(e, d, _, _),
               sql_and (sql_eq (Some (DriveEntity.is_active e)) (Some 1))
                 (sql_or (sql_or (sql_ne (d ≫= DriveDocShare.user_name) user)
                                 (sql_eq (DriveDocShare.everyone <$> d) (Some 1)))
                         (sql_eq (DriveDocShare.public <$> d) (Some 1))))
       j3).

Definition get_shared_by_me (s : site) (get_all : bool) (order_by : string)
  : result (list shared_row) :=
  if get_all then Ok (shared_by_me_query s) else
  match first_word order_by with
  | None => Raise IndexError
  | Some field =>
      match orderby s field (endswith order_by "desc") (shared_by_me_query s) with
      | None => Raise DatabaseError
      | Some result =>
          let names := (λ x, row_name x) <$> result in
          (* Return highest level entity *)
          Ok (List.filter (λ x, not_in_names (row_parent x) names) result)
      end
  end.

(** The query of [get_shared_with_me], before [run]; [write] is
    [Max(DocShare.write)] over the group. *)
Definition shared_with_me_query (s : site) : list shared_row :=
  let user := Some (session_user s) in
  let j1 := inner_join (tabDriveEntity s) (tabDriveDocShare s)
              (λ e d, sql_eq (Some (DriveDocShare.share_name d)) (Some (DriveEntity.name e))) in
  let j2 := left_join j1 (tabUserGroupMember s)
              (λ '(_, d) m, sql_eq (Some (UserGroupMember.parent m)) (DriveDocShare.user_name d)) in
  let j3 := left_join j2 (tabDriveFavourite s)
              (λ '(e, _, _) f, sql_and
                        (sql_eq (Some (DriveFavourite.entity f)) (Some (DriveEntity.name e)))
                        (sql_eq (Some (DriveFavourite.user f)) user)) in
  groupby s (λ '(e, _, _, _), DriveEntity.name e)
    (λ '(e, d, _, f) g,
       {| row_entity := e;
          row_full_name := None;
          row_user_image := None;
          row_read := Some (DriveDocShare.read d);
          row_write := Some (max_list (DriveDocShare.write d)
                               ((λ '(_, d', _, _), DriveDocShare.write d') <$> g));
          row_everyone := Some (DriveDocShare.everyone d);
          row_share := Some (DriveDocShare.share d);
          is_favourite := DriveFavourite.entity <$> f |})
    (where_ (λ '(e, d, m, _),
               sql_and (sql_eq (Some (DriveEntity.is_active e)) (Some 1))
                 (sql_or (sql_eq (UserGroupMember.user <$> m) user)
                         (sql_or (sql_eq (DriveDocShare.user_name d) user)
                                 (sql_eq (Some (DriveDocShare.everyone d)) (Some 1)))))
       j3).

Definition get_shared_with_me (s : site) (get_all : bool) (order_by : string)
  : result (list shared_row) :=
  if get_all then Ok (shared_with_me_query s) else
  match first_word order_by with
  | None => Raise IndexError
  | Some field =>
      match orderby s field (endswith order_by "desc") (shared_with_me_query s) with
      | None => Raise DatabaseError
      | Some result =>
          let names := (λ x, row_name x) <$> result in
          (* Return highest level entity *)
          Ok (List.filter
                (λ x, not_in_names (row_parent x) names
                      && negb (bool_decide (row_owner x = session_user s)))
                result)
      end
  end.

(** ** The metadata gate *)

(** The recently-viewed records kept by the external collaborator: one
    (entity, user) pair per view, newest first. *)
Definition viewed := list (string * string).

(** Computations that read the site, may raise and may write the
    recently-viewed records. *)
Definition M (A : Type) : Type := viewed → result A * viewed.

#[global] Instance M_ret : MRet M := λ A a st, (Ok a, st).
#[global] Instance M_bind : MBind M := λ A B f m st,
  match m st with
  | (Ok a, st') => f a st'
  | (Raise e, st') => (Raise e, st')
  end.

Definition throw {A} (e : exn) : M A := λ st, (Raise e, st).

Definition lift {A} (r : result A) : M A := λ st, (r, st).

Definition pass : M unit := mret tt.

(** [frappe.throw(msg)] raises [ValidationError] unless told otherwise. *)
Definition msg_not_permitted : string := "Not permitted".
Definition msg_parent_deleted : string := "Parent Folder has been deleted".
Definition msg_trashed : string := "Specified file has been trashed by the owner".

(** Modelled from the spec: [drive.api.files.get_entity] is not part of this
    module; the spec gives [GetEntity(id) -> Entity | NotFound]. *)
Definition get_entity (s : site) (entity_name : string) : result DriveEntity.row :=
  match List.find (λ e, bool_decide (DriveEntity.name e = entity_name)) (tabDriveEntity s) with
  | Some e => Ok e
  | None => Raise DoesNotExistError
  end.

(** Modelled from the spec: [drive.utils.users.mark_as_viewed] is not part of
    this module; the spec gives [MarkViewed(entityId, principalId)], a write
    to the recently-viewed record that does not fail the read path. *)
Definition mark_as_viewed (s : site) (entity_name : string) : M unit :=
  λ st, (Ok tt, (entity_name, session_user s) :: st).

(** The entity as the dictionary of the [fields] the gate asks for. *)
Definition opt_str (o : option string) : value :=
  match o with
  | None => VNone
  | Some x => VStr x
  end.

Definition entity_dict (e : DriveEntity.row) : dict :=
  list_to_map
    [ ("name", VStr (DriveEntity.name e));
      ("title", VStr (DriveEntity.title e));
      ("owner", VStr (DriveEntity.owner e));
      ("is_group", VInt (DriveEntity.is_group e));
      ("is_active", VInt (DriveEntity.is_active e));
      ("modified", VInt (DriveEntity.modified e));
      ("creation", VInt (DriveEntity.creation e));
      ("file_size", VInt (DriveEntity.file_size e));
      ("mime_type", opt_str (DriveEntity.mime_type e));
      ("file_ext", opt_str (DriveEntity.file_ext e));
      ("allow_comments", VInt (DriveEntity.allow_comments e));
      ("allow_download", VInt (DriveEntity.allow_download e));
      ("document", opt_str (DriveEntity.document e)) ].

(** [frappe.db.exists("Drive Entity", {"name": z, "is_active": 0})] *)
Definition exists_inactive (s : site) (z_entity_name : string) : bool :=
  bool_decide
    (Exists (λ e, DriveEntity.name e = z_entity_name ∧ DriveEntity.is_active e = 0)
       (tabDriveEntity s)).

(** The loop over the ancestors, with its [break]. *)
Fixpoint ancestor_flag (s : site) (entity_ancestors : list string) : bool :=
  match entity_ancestors with
  | [] => false
  | z_entity_name :: rest =>
      if exists_inactive s z_entity_name then true else ancestor_flag s rest
  end.

Definition get_entity_with_permissions (s : site) (entity_name : string) : M dict :=
  _ ← (if bool_decide (get_general_access s entity_name = []) then
         if negb (has_permission s "Drive Entity" entity_name "read" (session_user s))
         then throw (PermissionError msg_not_permitted)
         else pass
       else pass);
  entity ← lift (get_entity s entity_name);
  let entity_ancestors := get_ancestors_of s "Drive Entity" entity in
  let flag := ancestor_flag s entity_ancestors in
  _ ← (if flag then throw (ValidationError msg_parent_deleted) else pass);
  (* Avoiding marking folders as recently viewed *)
  _ ← (if negb (bool_decide (session_user s = "Guest")) then
         if negb (truthy_int (DriveEntity.is_group entity))
         then mark_as_viewed s entity_name
         else pass
       else pass);
  _ ← (if negb (truthy_int (DriveEntity.is_active entity))
       then throw (ValidationError msg_trashed)
       else pass);
  if bool_decide (DriveEntity.owner entity = session_user s) then
    if truthy_str (DriveEntity.document entity) then
      let entity_doc_content := get_doc_content s (default "" (DriveEntity.document entity)) in
      mret (dict_or (entity_dict entity) entity_doc_content)
    else mret (entity_dict entity)
  else
    let user_access := get_user_access s (DriveEntity.name entity) in
    if truthy_str (DriveEntity.document entity) then
      let entity_doc_content := get_doc_content s (default "" (DriveEntity.document entity)) in
      mret (dict_or (dict_or (entity_dict entity) user_access) entity_doc_content)
    else mret (dict_or (entity_dict entity) user_access).

(** ** What the specification speaks of *)

(** The full decision [{read:true, write:true, share:true}]. *)
Definition full_access : dict :=
  <["read" := VInt 1]> (<["write" := VInt 1]> (<["share" := VInt 1]> ∅)).

(** The grants on an entity that name a group the session user belongs to. *)
Definition matching_group_grants (s : site) (entity_name : string)
  : list DriveDocShare.row :=
  filter (λ d, DriveDocShare.share_name d = entity_name
               ∧ Exists (λ m, UserGroupMember.user m = session_user s
                              ∧ Some (UserGroupMember.parent m) = DriveDocShare.user_name d)
                        (tabUserGroupMember s))
         (tabDriveDocShare s).

(** The logical OR of a list of Check flags. *)
Definition any_flag (flags : list Z) : bool := existsb truthy_int flags.

(** A Check column holds 0 or 1. *)
Definition check_flag (z : Z) : Prop := z = 0 ∨ z = 1.

(** ** Sample sites *)

Definition file (name owner : string) (parent : option string) (is_active : Z)
  : DriveEntity.row :=
  {| DriveEntity.name := name; DriveEntity.title := name; DriveEntity.owner := owner;
     DriveEntity.is_group := 0; DriveEntity.is_active := is_active;
     DriveEntity.modified := 0; DriveEntity.creation := 0; DriveEntity.file_size := 0;
     DriveEntity.mime_type := None; DriveEntity.file_ext := None;
     DriveEntity.parent_drive_entity := parent;
     DriveEntity.allow_comments := 0; DriveEntity.allow_download := 0;
     DriveEntity.color := None; DriveEntity.document := None |}.

Definition folder (name owner : string) (parent : option string) (is_active : Z)
  : DriveEntity.row :=
  {| DriveEntity.name := name; DriveEntity.title := name; DriveEntity.owner := owner;
     DriveEntity.is_group := 1; DriveEntity.is_active := is_active;
     DriveEntity.modified := 0; DriveEntity.creation := 0; DriveEntity.file_size := 0;
     DriveEntity.mime_type := None; DriveEntity.file_ext := None;
     DriveEntity.parent_drive_entity := parent;
     DriveEntity.allow_comments := 0; DriveEntity.allow_download := 0;
     DriveEntity.color := None; DriveEntity.document := None |}.

Definition grant (name entity : string) (doctype user : option string)
    (r w sh ev pub : Z) : DriveDocShare.row :=
  {| DriveDocShare.name := name; DriveDocShare.share_doctype := "Drive Entity";
     DriveDocShare.share_name := entity; DriveDocShare.user_doctype := doctype;
     DriveDocShare.user_name := user; DriveDocShare.read := r; DriveDocShare.write := w;
     DriveDocShare.share := sh; DriveDocShare.everyone := ev; DriveDocShare.public := pub |}.

Definition member (name group user : string) : UserGroupMember.row :=
  {| UserGroupMember.name := name; UserGroupMember.parent := group;
     UserGroupMember.user := user |}.

(** An engine that lets the first row of a group stand for it and leaves
    the rows in the order it found them. *)
Definition first_value (A : Type) (x : A) (l : list A) : A := x.
Definition keep_order (field : string) (desc : bool) (rows : list shared_row)
  : option (list shared_row) := Some rows.

Definition mk_site (user : string) (entities : list DriveEntity.row)
    (shares : list DriveDocShare.row) (members : list UserGroupMember.row)
    (permitted : string → bool) (ancestors : list string) : site :=
  {| session_user := user; tabDriveEntity := entities; tabDriveDocShare := shares;
     tabUserGroupMember := members; tabDriveFavourite := []; tabUser := [];
     has_permission := λ _ _ ptype _, permitted ptype;
     get_ancestors_of := λ _ _, ancestors;
     get_doc_content := λ _, ∅;
     any_value := first_value; orderby := keep_order |}.

(** F is owned by alice and has no share at all; alice is signed in. *)
Definition site_owner : site :=
  mk_site "alice" [file "F" "alice" None 1] [] [] (λ _, true) [].

(** F is owned by alice; bob holds a direct all-false row on it while his
    group G and everyone are granted read and write. *)
Definition site_direct : site :=
  mk_site "bob" [file "F" "alice" None 1]
    [ grant "s1" "F" (Some "User Group") (Some "G") 1 1 0 0 0;
      grant "s2" "F" None None 1 1 0 1 0;
      grant "s3" "F" (Some "User") (Some "bob") 0 0 1 0 0 ]
    [ member "m1" "G" "bob" ] (λ _, true) [].

(** F carries a public read-only grant; nobody is signed in. *)
Definition site_guest : site :=
  mk_site "Guest" [file "F" "alice" None 1]
    [ grant "s1" "F" (Some "User") (Some "bob") 1 1 1 0 0;
      grant "s2" "F" None None 1 0 1 0 1 ]
    [] (λ _, false) [].

(** bob holds Frappe read permission on F, but no write permission, and his
    only share on F is read-only; F has no everyone or public grant. *)
Definition site_reader : site :=
  mk_site "bob" [file "F" "alice" None 1]
    [ grant "s1" "F" (Some "User") (Some "bob") 1 0 0 0 0 ]
    [] (λ ptype, bool_decide (ptype = "read")) [].

(** Root → Mid (trashed) → Leaf, all owned by alice.  On the first site
    alice herself asks for Leaf; on the second carol does, who holds no
    permission on it. *)
Definition chain : list DriveEntity.row :=
  [ folder "Root" "alice" None 1;
    folder "Mid" "alice" (Some "Root") 0;
    file "Leaf" "alice" (Some "Mid") 1 ].

Definition site_chain_owner : site :=
  mk_site "alice" chain [] [] (λ _, true) ["Mid"; "Root"].

Definition site_chain_stranger : site :=
  mk_site "carol" chain [] [] (λ _, false) ["Mid"; "Root"].

(** F has been trashed by alice; bob, who may read it, asks for it. *)
Definition site_trashed : site :=
  mk_site "bob" [file "F" "alice" None 0]
    [ grant "s1" "F" (Some "User") (Some "bob") 1 0 0 0 0 ]
    [] (λ _, true) [].

(** alice owns the folder Docs and the file Report inside it and has shared
    both with bob; bob lists what is shared with him. *)
Definition tree : list DriveEntity.row :=
  [ folder "Docs" "alice" None 1;
    file "Report" "alice" (Some "Docs") 1 ].

Definition tree_shares : list DriveDocShare.row :=
  [ grant "s1" "Docs" (Some "User") (Some "bob") 1 0 0 0 0;
    grant "s2" "Report" (Some "User") (Some "bob") 1 0 0 0 0 ].

Definition site_tree_bob : site :=
  mk_site "bob" tree tree_shares [] (λ _, true) [].

(** alice owns F and has shared it with everyone; alice lists what is
    shared with her. *)
Definition site_own_everyone : site :=
  mk_site "alice" [file "F" "alice" None 1]
    [ grant "s1" "F" None None 1 0 0 1 0 ] [] (λ _, true) [].

(** The row bob is shown for the folder Docs. *)
Definition docs_row : shared_row :=
  {| row_entity := folder "Docs" "alice" None 1;
     row_full_name := None; row_user_image := None;
     row_read := Some 1; row_write := Some 0;
     row_everyone := Some 0; row_share := Some 0;
     is_favourite := None |}.

(** The same site with another choice of the row standing for a group. *)
Definition with_any_value (pick : ∀ A : Type, A → list A → A) (s : site) : site :=
  {| session_user := session_user s; tabDriveEntity := tabDriveEntity s;
     tabDriveDocShare := tabDriveDocShare s;
     tabUserGroupMember := tabUserGroupMember s;
     tabDriveFavourite := tabDriveFavourite s; tabUser := tabUser s;
     has_permission := has_permission s; get_ancestors_of := get_ancestors_of s;
     get_doc_content := get_doc_content s;
     any_value := pick; orderby := orderby s |}.

(** bob belongs to the groups G and H; F is shared with G read-only and
    with H write-only. *)
Definition site_groups : site :=
  mk_site "bob" [file "F" "alice" None 1]
    [ grant "s1" "F" (Some "User Group") (Some "G") 1 0 0 0 0;
      grant "s2" "F" (Some "User Group") (Some "H") 0 1 0 0 0 ]
    [ member "m1" "G" "bob"; member "m2" "H" "bob" ] (λ _, true) [].

(** bob belongs to the group G; F has two share rows for G, one read-only
    and one write-only. *)
Definition read_only_G : DriveDocShare.row :=
  grant "s1" "F" (Some "User Group") (Some "G") 1 0 0 0 0.
Definition write_only_G : DriveDocShare.row :=
  grant "s2" "F" (Some "User Group") (Some "G") 0 1 0 0 0.

Definition site_duplicate : site :=
  mk_site "bob" [file "F" "alice" None 1] [read_only_G; write_only_G]
    [ member "m1" "G" "bob" ] (λ _, true) [].

Definition site_duplicate_swapped : site :=
  mk_site "bob" [file "F" "alice" None 1] [write_only_G; read_only_G]
    [ member "m1" "G" "bob" ] (λ _, true) [].

(** F is owned by alice and shared with bob read-only and with his group G
    for reading and writing. *)
Definition site_scenario : site :=
  mk_site "bob" [file "F" "alice" None 1]
    [ grant "s1" "F" (Some "User") (Some "bob") 1 0 0 0 0;
      grant "s2" "F" (Some "User Group") (Some "G") 1 1 0 0 0 ]
    [ member "m1" "G" "bob" ] (λ _, true) [].

(** The same shares seen by carol, who is in no group and has no share. *)
Definition site_nobody : site :=
  mk_site "carol" [file "F" "alice" None 1]
    [ grant "s1" "F" (Some "User") (Some "bob") 1 0 0 0 0;
      grant "s2" "F" (Some "User Group") (Some "G") 1 1 0 0 0 ]
    [ member "m1" "G" "bob" ] (λ _, true) [].

(** ** Further notions and sample sites *)

(** What every SQL engine guarantees about ORDER BY: the rows it returns
    are the rows it was given, in some order. *)
Definition orderby_ok (s : site) : Prop :=
  ∀ field desc rows rows', orderby s field desc rows = Some rows' → rows' ≡ₚ rows.

(** The condition under which the permission check of the gate lets the
    caller through. *)
Definition permitted (s : site) (entity_name : string) : Prop :=
  get_general_access s entity_name ≠ []
  ∨ has_permission s "Drive Entity" entity_name "read" (session_user s) = true.

(** The same site with another answer from [frappe.has_permission]. *)
Definition with_has_permission (p : string → string → string → string → bool)
    (s : site) : site :=
  {| session_user := session_user s; tabDriveEntity := tabDriveEntity s;
     tabDriveDocShare := tabDriveDocShare s;
     tabUserGroupMember := tabUserGroupMember s;
     tabDriveFavourite := tabDriveFavourite s; tabUser := tabUser s;
     has_permission := p; get_ancestors_of := get_ancestors_of s;
     get_doc_content := get_doc_content s;
     any_value := any_value s; orderby := orderby s |}.

(** A share row on [entity_name] that reaches [user]: it names the user,
    or everyone, or a group the user belongs to. *)
Definition reaches (s : site) (d : DriveDocShare.row) : Prop :=
  DriveDocShare.user_name d = Some (session_user s)
  ∨ DriveDocShare.everyone d = 1
  ∨ Exists (λ m, UserGroupMember.user m = session_user s
                 ∧ Some (UserGroupMember.parent m) = DriveDocShare.user_name d)
           (tabUserGroupMember s).

(** A share row that points away from [user]: it names somebody else, or
    everyone, or the public. *)
Definition points_outward (s : site) (d : DriveDocShare.row) : Prop :=
  (∃ u, DriveDocShare.user_name d = Some u ∧ u ≠ session_user s)
  ∨ DriveDocShare.everyone d = 1
  ∨ DriveDocShare.public d = 1.


(** carol is in no group; F has a group grant for G, a read-only grant for
    everyone and a read-write public grant. *)
Definition site_broadcast : site :=
  mk_site "carol" [file "F" "alice" None 1]
    [ grant "s1" "F" (Some "User Group") (Some "G") 1 1 0 0 0;
      grant "s2" "F" None None 1 1 0 0 1;
      grant "s3" "F" None None 1 0 0 1 0 ]
    [ member "m1" "G" "bob" ] (λ _, true) [].

(** G is the only entity with shares; carol asks about F. *)
Definition site_unshared : site :=
  mk_site "carol" [file "F" "alice" None 1; file "G" "alice" None 1]
    [ grant "s1" "G" None None 1 1 0 1 1 ]
    [] (λ _, true) [].

(** F carries a public grant; dave is signed in without any Frappe
    permission on it. *)
Definition site_public_dave : site :=
  mk_site "dave" [file "F" "alice" None 1]
    [ grant "s1" "F" None None 1 0 0 0 1 ]
    [] (λ _, false) [].

(** The joined rows of [get_shared_with_me] that pass its WHERE, before
    they are grouped, and the same for [get_shared_by_me]. *)
Definition shared_with_me_rows (s : site)
  : list (DriveEntity.row * DriveDocShare.row * option UserGroupMember.row
          * option DriveFavourite.row) :=
  let user := Some (session_user s) in
  where_ (λ '(e, d, m, _),
            sql_and (sql_eq (Some (DriveEntity.is_active e)) (Some 1))
              (sql_or (sql_eq (UserGroupMember.user <$> m) user)
                      (sql_or (sql_eq (DriveDocShare.user_name d) user)
                              (sql_eq (Some (DriveDocShare.everyone d)) (Some 1)))))
    (left_join
       (left_join
          (inner_join (tabDriveEntity s) (tabDriveDocShare s)
             (λ e d, sql_eq (Some (DriveDocShare.share_name d)) (Some (DriveEntity.name e))))
          (tabUserGroupMember s)
          (λ '(_, d) m, sql_eq (Some (UserGroupMember.parent m)) (DriveDocShare.user_name d)))
       (tabDriveFavourite s)
       (λ '(e, _, _) f, sql_and
                 (sql_eq (Some (DriveFavourite.entity f)) (Some (DriveEntity.name e)))
                 (sql_eq (Some (DriveFavourite.user f)) user))).

Definition shared_by_me_rows (s : site)
  : list (DriveEntity.row * option DriveDocShare.row * option User.row
          * option DriveFavourite.row) :=
  let user := Some (session_user s) in
  where_ (λ '(e, d, _, _),
            sql_and (sql_eq (Some (DriveEntity.is_active e)) (Some 1))
              (sql_or (sql_or (sql_ne (d ≫= DriveDocShare.user_name) user)
                              (sql_eq (DriveDocShare.everyone <$> d) (Some 1)))
                      (sql_eq (DriveDocShare.public <$> d) (Some 1))))
    (left_join
       (left_join
          (left_join (tabDriveEntity s) (tabDriveDocShare s)
             (λ e d, sql_and
                       (sql_eq (Some (DriveDocShare.share_name d)) (Some (DriveEntity.name e)))
                       (sql_eq (Some (DriveEntity.owner e)) user)))
          (tabUser s)
          (λ '(e, _) u, sql_eq (Some (DriveEntity.owner e)) (Some (User.email u))))
       (tabDriveFavourite s)
       (λ '(e, _, _) f, sql_and
                 (sql_eq (Some (DriveFavourite.entity f)) (Some (DriveEntity.name e)))
                 (sql_eq (Some (DriveFavourite.user f)) user))).

(** alice, signed in, owns Docs and Report and has shared both with bob. *)
Definition site_tree_alice : site :=
  mk_site "alice" tree tree_shares [] (λ _, true) [].

(** The row bob is shown for F on [site_scenario]: read from his own
    read-only row, write from the grant to his group. *)
Definition scenario_row : shared_row :=
  {| row_entity := file "F" "alice" None 1;
     row_full_name := None; row_user_image := None;
     row_read := Some 1; row_write := Some 1;
     row_everyone := Some 0; row_share := Some 0;
     is_favourite := None |}.

(** bob's own folder Mine holds Report, which alice owns and has shared
    with him; Mine itself is shared with everyone. *)
Definition site_nested : site :=
  mk_site "bob"
    [ folder "Mine" "bob" None 1; file "Report" "alice" (Some "Mine") 1 ]
    [ grant "s1" "Mine" None None 1 0 0 1 0;
      grant "s2" "Report" (Some "User") (Some "bob") 1 0 0 0 0 ]
    [] (λ _, true) [].

(** ** [get_all_my_entities] *)

(** The columns of a Drive Entity row this module names, by name. *)
Definition entity_columns (e : DriveEntity.row) : dict :=
  list_to_map
    [ ("name", VStr (DriveEntity.name e));
      ("title", VStr (DriveEntity.title e));
      ("owner", VStr (DriveEntity.owner e));
      ("is_group", VInt (DriveEntity.is_group e));
      ("is_active", VInt (DriveEntity.is_active e));
      ("modified", VInt (DriveEntity.modified e));
      ("creation", VInt (DriveEntity.creation e));
      ("file_size", VInt (DriveEntity.file_size e));
      ("mime_type", opt_str (DriveEntity.mime_type e));
      ("file_ext", opt_str (DriveEntity.file_ext e));
      ("parent_drive_entity", opt_str (DriveEntity.parent_drive_entity e));
      ("allow_comments", VInt (DriveEntity.allow_comments e));
      ("allow_download", VInt (DriveEntity.allow_download e));
      ("color", opt_str (DriveEntity.color e));
      ("document", opt_str (DriveEntity.document e)) ].

Definition entity_column_names : list string :=
  [ "name"; "title"; "owner"; "is_group"; "is_active"; "modified"; "creation";
    "file_size"; "mime_type"; "file_ext"; "parent_drive_entity"; "allow_comments";
    "allow_download"; "color"; "document" ].

(** A row restricted to [fields]; [None] when a field is not a column. *)
Fixpoint select_fields (fields : list string) (columns : dict) : option dict :=
  match fields with
  | [] => Some ∅
  | f :: fields =>
      match columns !! f, select_fields fields columns with
      | Some v, Some row => Some (<[f := v]> row)
      | _, _ => None
      end
  end.

Definition opt_int (o : option Z) : value :=
  match o with
  | None => VNone
  | Some z => VInt z
  end.

(** A row of [get_shared_with_me] as the dictionary [run(as_dict=True)]
    gives. *)
Definition shared_with_me_dict (x : shared_row) : dict :=
  let e := row_entity x in
  list_to_map
    [ ("name", VStr (DriveEntity.name e));
      ("title", VStr (DriveEntity.title e));
      ("is_group", VInt (DriveEntity.is_group e));
      ("owner", VStr (DriveEntity.owner e));
      ("modified", VInt (DriveEntity.modified e));
      ("creation", VInt (DriveEntity.creation e));
      ("file_size", VInt (DriveEntity.file_size e));
      ("mime_type", opt_str (DriveEntity.mime_type e));
      ("parent_drive_entity", opt_str (DriveEntity.parent_drive_entity e));
      ("allow_comments", VInt (DriveEntity.allow_comments e));
      ("color", opt_str (DriveEntity.color e));
      ("document", opt_str (DriveEntity.document e));
      ("allow_download", VInt (DriveEntity.allow_download e));
      ("read", opt_int (row_read x));
      ("write", opt_int (row_write x));
      ("everyone", opt_int (row_everyone x));
      ("share", opt_int (row_share x));
      ("is_favourite", opt_str (is_favourite x)) ].

(** [d[k] = v] on a Python dictionary kept as the list of its items in
    insertion order: a key that is there keeps its place and takes the new
    value, a new key goes to the end. *)
Fixpoint setitem (k : value) (v : dict) (items : list (value * dict))
  : list (value * dict) :=
  match items with
  | [] => [(k, v)]
  | (k', v') :: items =>
      if decide (k = k') then (k, v) :: items else (k', v') :: setitem k v items
  end.

(** [{x["name"]: x for x in rows}], started from [items]; [None] is the
    KeyError of a row without the key. *)
Fixpoint by_name (rows : list dict) (items : list (value * dict))
  : option (list (value * dict)) :=
  match rows with
  | [] => Some items
  | x :: rows =>
      match x !! "name" with
      | Some k => by_name rows (setitem k x items)
      | None => None
      end
  end.

(** What keying the rows by name keeps true of the items: the keys are
    distinct and every row sits under its own name. *)
Definition named (items : list (value * dict)) : Prop :=
  NoDup (fst <$> items) ∧ ∀ k v, (k, v) ∈ items → v !! "name" = Some k.

Inductive entities_error :=
  | Raised (e : exn)
  | KeyError.

Definition default_fields : list string :=
  ["name"; "title"; "is_group"; "owner"; "modified"; "file_size"; "mime_type"].

(** The rows of [my_entities]: the active entities the user owns, other
    than the home directory, that [frappe.db.get_list] hands out. *)
Definition my_entities_rows (s : site) (home : string)
    (readable : DriveEntity.row → bool) : list DriveEntity.row :=
  List.filter
    (λ e, (DriveEntity.is_active e =? 1)
          && bool_decide (DriveEntity.owner e = session_user s)
          && negb (bool_decide (DriveEntity.name e = home))
          && readable e)
    (tabDriveEntity s).

(** [get_user_directory] is [drive.utils.files.get_user_directory], taken
    as given: the name of the home directory of the user, or what it
    raises.  [readable] stands for what [frappe.db.get_list] adds to the
    filters on its own account: the permission conditions for the session
    user and its paging. *)
Definition get_all_my_entities (s : site) (get_user_directory : result string)
    (readable : DriveEntity.row → bool) (fields : option (list string))
  : list dict + entities_error :=
  let fields := match fields with
                | None | Some [] => default_fields
                | Some fields => fields
                end in
  match get_user_directory with
  | Raise e => inr (Raised e)
  | Ok home =>
      if negb (forallb (λ f, bool_decide (f ∈ entity_column_names)) fields)
      then inr (Raised DatabaseError)
      else
        let my_entities :=
          omap (λ e, select_fields fields (entity_columns e))
               (my_entities_rows s home readable) in
        let shared_entities := shared_with_me_dict <$> shared_with_me_query s in
        let all_entities := app shared_entities my_entities in
        match by_name all_entities [] with
        | None => inr KeyError
        | Some items => inl (snd <$> items)
        end
  end.

(** bob's home directory Home holds his folder Mine, shared with everyone,
    and the trashed Old; Report, in Mine, is alice's and shared with bob. *)
Definition site_mine : site :=
  mk_site "bob"
    [ folder "Home" "bob" None 1; folder "Mine" "bob" (Some "Home") 1;
      file "Report" "alice" (Some "Mine") 1; file "Old" "bob" (Some "Home") 0 ]
    [ grant "s1" "Mine" None None 1 0 0 1 0;
      grant "s2" "Report" (Some "User") (Some "bob") 1 0 0 0 0 ]
    [] (λ _, true) [].

Definition everything_readable (e : DriveEntity.row) : bool := true.

(** What bob gets on [site_mine] with the default fields. *)
Definition mine_entities : list dict :=
  match get_all_my_entities site_mine (Ok "Home") everything_readable None with
  | inl l => l
  | inr _ => []
  end.

(** * Properties *)

(** Membership in a list that is written out. *)
Ltac in_list :=
  repeat first [apply list_elem_of_here | apply list_elem_of_further].

(** ** Dictionaries returned by [get_user_access] *)

Lemma read_write_nonempty r w : read_write r w ≠ ∅.
Proof. unfold read_write. apply insert_non_empty. Qed.

Lemma read_write_share r w : read_write r w !! "share" = None.
Proof. reflexivity. Qed.

Lemma read_write_dom r w : dom (read_write r w) = ({["read"; "write"]} : gset string).
Proof.
  unfold read_write. rewrite !dom_insert_L, dom_empty_L. set_solver.
Qed.

Lemma get_value_Some s f d :
  List.find f (tabDriveDocShare s) = Some d →
  get_value s f = Some (docshare_read_write d) ∧ truthy_dict (get_value s f) = true.
Proof.
  intros H. unfold get_value. rewrite H. simpl. split; [done|].
  rewrite bool_decide_eq_false_2 by apply read_write_nonempty. done.
Qed.

Lemma get_value_None s f :
  List.find f (tabDriveDocShare s) = None →
  get_value s f = None.
Proof. intros H. unfold get_value. by rewrite H. Qed.

Lemma get_value_shape s f :
  get_value s f = None ∨ ∃ r w, get_value s f = Some (read_write r w).
Proof.
  unfold get_value. destruct (List.find f _) as [d|]; simpl; [right|by left].
  by eexists _, _.
Qed.

Lemma user_group_entity_access_shape s e :
  user_group_entity_access s e = None
  ∨ ∃ r w, user_group_entity_access s e = Some (read_write r w).
Proof.
  unfold user_group_entity_access. destruct (group_shares s e); [by left|right].
  by eexists _, _.
Qed.

Lemma get_user_access_shape s e : ∃ r w, get_user_access s e = read_write r w.
Proof.
  unfold get_user_access.
  pose proof (get_value_shape s (user_filters e (session_user s))) as Hu.
  pose proof (get_value_shape s (everyone_filters e)) as He.
  pose proof (get_value_shape s (public_filters e)) as Hp.
  pose proof (user_group_entity_access_shape s e) as Hg.
  repeat match goal with
  | H : _ ∨ _ |- _ => destruct H as [H | (? & ? & H)]; rewrite H; clear H
  end; simpl;
  repeat (rewrite (bool_decide_eq_false_2 (read_write _ _ = ∅)) by apply read_write_nonempty); simpl;
  destruct (negb _); simpl; by eexists _, _.
Qed.

(** C10: every dictionary [get_user_access] returns has exactly the keys
    [read] and [write]; it never carries a [share] key, whoever asks and
    whatever the [share] column of the rows consulted holds. *)
Theorem get_user_access_never_share (s : site) (entity_name : string) :
  dom (get_user_access s entity_name) = ({["read"; "write"]} : gset string)
  ∧ get_user_access s entity_name !! "share" = None.
Proof.
  destruct (get_user_access_shape s entity_name) as (r & w & ->).
  split; [apply read_write_dom | apply read_write_share].
Qed.

(** ** The gate, step by step *)

Lemma gate_run (s : site) (entity_name : string) (st : viewed) :
  get_entity_with_permissions s entity_name st =
  if bool_decide (get_general_access s entity_name = [])
     && negb (has_permission s "Drive Entity" entity_name "read" (session_user s))
  then (Raise (PermissionError msg_not_permitted), st)
  else
    match get_entity s entity_name with
    | Raise e => (Raise e, st)
    | Ok entity =>
        if ancestor_flag s (get_ancestors_of s "Drive Entity" entity)
        then (Raise (ValidationError msg_parent_deleted), st)
        else
          let st' :=
            if negb (bool_decide (session_user s = "Guest"))
               && negb (truthy_int (DriveEntity.is_group entity))
            then (entity_name, session_user s) :: st
            else st in
          if negb (truthy_int (DriveEntity.is_active entity))
          then (Raise (ValidationError msg_trashed), st')
          else
            let content := get_doc_content s (default "" (DriveEntity.document entity)) in
            let user_access := get_user_access s (DriveEntity.name entity) in
            (Ok (if bool_decide (DriveEntity.owner entity = session_user s)
                 then if truthy_str (DriveEntity.document entity)
                      then dict_or (entity_dict entity) content
                      else entity_dict entity
                 else if truthy_str (DriveEntity.document entity)
                      then dict_or (dict_or (entity_dict entity) user_access) content
                      else dict_or (entity_dict entity) user_access),
             st')
    end.
Proof.
  unfold get_entity_with_permissions, mbind, M_bind, mret, M_ret, pass, throw, lift,
    mark_as_viewed.
  destruct (bool_decide (get_general_access s entity_name = []));
    destruct (has_permission s _ _ _ _); simpl; try reflexivity;
  (destruct (get_entity s entity_name) as [entity|]; [|reflexivity];
   destruct (ancestor_flag s _); [reflexivity|];
   destruct (bool_decide (session_user s = "Guest")); simpl;
   destruct (truthy_int (DriveEntity.is_group entity)); simpl;
   destruct (truthy_int (DriveEntity.is_active entity)); simpl; try reflexivity;
   destruct (bool_decide (DriveEntity.owner entity = session_user s));
   destruct (truthy_str (DriveEntity.document entity)); reflexivity).
Qed.

Lemma entity_dict_no_access e k :
  k = "read" ∨ k = "write" ∨ k = "share" → entity_dict e !! k = None.
Proof. intros [-> | [-> | ->]]; reflexivity. Qed.

(** ** Direct grants and anonymous callers *)

Lemma find_head_filter {A} (f : A → bool) (l : list A) :
  List.find f l = head (List.filter f l).
Proof. induction l as [|x l IH]; simpl; [done|]. by destruct (f x). Qed.

Lemma find_is_match {A} (f : A → bool) (l : list A) x :
  x ∈ l → f x = true → ∃ x0, List.find f l = Some x0 ∧ x0 ∈ l ∧ f x0 = true.
Proof.
  intros Hx Hf. destruct (List.find f l) as [x0|] eqn:Hfind.
  - apply find_some in Hfind as [Hin ?]. exists x0. by rewrite list_elem_of_In.
  - apply list_elem_of_In in Hx. pose proof (find_none f l Hfind x Hx). congruence.
Qed.

Lemma get_user_access_direct s e d :
  session_user s ≠ "Guest" →
  List.find (user_filters e (session_user s)) (tabDriveDocShare s) = Some d →
  get_user_access s e = docshare_read_write d.
Proof.
  intros Hu Hf. unfold get_user_access.
  rewrite (bool_decide_eq_false_2 _ Hu). simpl.
  destruct (get_value_Some s _ d Hf) as [-> ->]. done.
Qed.

(** C2: once a row with user_doctype "User" and user_name the signed-in
    user exists on the entity, [get_user_access] returns the read and write
    of such a row (the first one met, so the row itself when the direct rows
    agree) and nothing else in the database is consulted: any site with the
    same direct rows gives the same answer, whatever its group, everyone and
    public rows say. *)
Theorem direct_grant_short_circuits (s : site) (entity_name : string)
    (d : DriveDocShare.row) :
  session_user s ≠ "Guest" →
  d ∈ tabDriveDocShare s →
  user_filters entity_name (session_user s) d = true →
  (∃ d0, d0 ∈ tabDriveDocShare s
         ∧ user_filters entity_name (session_user s) d0 = true
         ∧ get_user_access s entity_name = docshare_read_write d0)
  ∧ ((∀ d', d' ∈ tabDriveDocShare s →
            user_filters entity_name (session_user s) d' = true →
            docshare_read_write d' = docshare_read_write d) →
     get_user_access s entity_name = docshare_read_write d)
  ∧ (∀ s', session_user s' = session_user s →
           List.filter (user_filters entity_name (session_user s)) (tabDriveDocShare s')
           = List.filter (user_filters entity_name (session_user s)) (tabDriveDocShare s) →
           get_user_access s' entity_name = get_user_access s entity_name).
Proof.
  intros Hu Hd Hf.
  destruct (find_is_match _ _ d Hd Hf) as (d0 & Hfind & Hin0 & Hf0).
  pose proof (get_user_access_direct s entity_name d0 Hu Hfind) as Hget.
  split; [by exists d0|]. split.
  - intros Hsame. rewrite Hget. by apply Hsame.
  - intros s' Hs' Hrows. rewrite Hget.
    apply get_user_access_direct; [by rewrite Hs'|].
    rewrite Hs', find_head_filter, Hrows, <- find_head_filter. done.
Qed.

(** On [site_direct] bob's all-false row wins over the read-write grants
    to his group and to everyone. *)
Lemma direct_grant_short_circuits_witness :
  get_user_access site_direct "F" = read_write 0 0.
Proof.
  refine (proj1 (proj2 (direct_grant_short_circuits site_direct "F"
            (grant "s3" "F" (Some "User") (Some "bob") 0 0 1 0 0) _ _ _)) _).
  - discriminate.
  - in_list.
  - reflexivity.
  - intros d' Hd' Hf'.
    apply elem_of_cons in Hd' as [-> | Hd']; [discriminate Hf'|].
    apply elem_of_cons in Hd' as [-> | Hd']; [discriminate Hf'|].
    apply elem_of_cons in Hd' as [-> | Hd']; [reflexivity|].
    by apply not_elem_of_nil in Hd'.
Defined.

(** The group's write flag does not leak through bob's read-only row, and
    carol gets the default. *)
Example scenario_direct_over_group :
  get_user_access site_scenario "F" = read_write 1 0.
Proof. reflexivity. Qed.

Example scenario_default_deny :
  get_user_access site_nobody "F" = read_write 0 0.
Proof. reflexivity. Qed.

(** C5: for the Guest session [get_user_access] looks at the public rows of
    the entity only; it returns the read and write of the first one, or
    [{read: 0, write: 0}] when there is none, and no [share] key either way.
    The gate adds none: what it returns to Guest for an entity without an
    attached document has no [share] key. *)
Theorem guest_consults_only_public (s : site) (entity_name : string) :
  session_user s = "Guest" →
  get_user_access s entity_name
  = match List.find (public_filters entity_name) (tabDriveDocShare s) with
    | Some d => docshare_read_write d
    | None => read_write 0 0
    end
  ∧ get_user_access s entity_name !! "share" = None
  ∧ (∀ e st v st',
       get_entity s entity_name = Ok e →
       truthy_str (DriveEntity.document e) = false →
       get_entity_with_permissions s entity_name st = (Ok v, st') →
       v !! "share" = None).
Proof.
  intros Hu. split; [|split].
  - unfold get_user_access. rewrite (bool_decide_eq_true_2 _ Hu). simpl.
    destruct (List.find _ _) as [d|] eqn:Hf.
    + by destruct (get_value_Some s _ d Hf) as [-> ->].
    + by rewrite (get_value_None s _ Hf).
  - destruct (get_user_access_shape s entity_name) as (r & w & ->).
    apply read_write_share.
  - intros e st v st' He Hdoc. rewrite gate_run, He, Hdoc.
    repeat match goal with
    | |- context [if ?b then _ else _] => destruct b; simpl; try discriminate
    end; intros [= <- _];
    rewrite ?lookup_union; unfold dict_or; rewrite ?lookup_union;
    rewrite ?(entity_dict_no_access e "share") by auto;
    try (destruct (get_user_access_shape s (DriveEntity.name e)) as (r & w & ->);
         rewrite read_write_share); done.
Qed.

(** On [site_guest] the public read-only row decides, not bob's row. *)
Lemma guest_consults_only_public_witness :
  get_user_access site_guest "F" = read_write 1 0
  ∧ get_user_access site_guest "F" !! "share" = None.
Proof.
  destruct (guest_consults_only_public site_guest "F" eq_refl) as (H1 & H2 & _).
  split; [exact H1 | exact H2].
Defined.

(** ** Ownership *)

Lemma get_user_access_ignores_entities s s' e :
  session_user s' = session_user s →
  tabDriveDocShare s' = tabDriveDocShare s →
  tabUserGroupMember s' = tabUserGroupMember s →
  any_value s' = any_value s →
  get_user_access s' e = get_user_access s e.
Proof.
  intros Hu Hd Hm Ha.
  unfold get_user_access, user_group_entity_access, group_shares, groupby, get_value.
  by rewrite Hu, Hd, Hm, Ha.
Qed.

Lemma read_write_not_full r w : read_write r w ≠ full_access.
Proof.
  intros H. apply (f_equal (λ m : dict, m !! "share")) in H. discriminate H.
Qed.

(** ** The permission check of the gate *)

Lemma get_entity_raises s entity_name x :
  get_entity s entity_name = Raise x → x = DoesNotExistError.
Proof. unfold get_entity. destruct (List.find _ _); congruence. Qed.

(** C3, as the code has it: when the entity has no everyone or public
    grant, the gate asks Frappe for the *read* permission of the caller:
    without it the call raises PermissionError "Not permitted" and writes
    nothing; with it no PermissionError is raised, whatever the write
    permission and the write flag of [get_user_access] are. *)
Theorem gate_requires_read_permission (s : site) (entity_name : string) (st : viewed) :
  get_general_access s entity_name = [] →
  (has_permission s "Drive Entity" entity_name "read" (session_user s) = false →
   get_entity_with_permissions s entity_name st
   = (Raise (PermissionError msg_not_permitted), st))
  ∧ (has_permission s "Drive Entity" entity_name "read" (session_user s) = true →
     ∀ msg, (get_entity_with_permissions s entity_name st).1 ≠ Raise (PermissionError msg)).
Proof.
  intros Hg. rewrite gate_run, (bool_decide_eq_true_2 _ Hg). split.
  - intros ->. reflexivity.
  - intros -> msg. simpl.
    destruct (get_entity s entity_name) as [e|x] eqn:He.
    + repeat match goal with
      | |- context [if ?b then _ else _] => destruct b; simpl; try discriminate
      end.
    + apply get_entity_raises in He as ->. discriminate.
Qed.

(** carol, without read permission, is turned away from Leaf. *)
Lemma gate_requires_read_permission_witness :
  get_entity_with_permissions site_chain_stranger "Leaf" []
  = (Raise (PermissionError msg_not_permitted), []).
Proof.
  exact (proj1 (gate_requires_read_permission site_chain_stranger "Leaf" [] eq_refl)
           eq_refl).
Defined.

(** C3 as stated fails: on [site_reader] F has no general access, bob has
    neither Frappe write permission nor a write flag from
    [get_user_access], and the gate lets him through. *)
Lemma gate_passes_without_write :
  get_general_access site_reader "F" = []
  ∧ has_permission site_reader "Drive Entity" "F" "write" (session_user site_reader) = false
  ∧ get_user_access site_reader "F" !! "write" = Some (VInt 0)
  ∧ (get_entity_with_permissions site_reader "F" []).1
    = Ok (dict_or (entity_dict (file "F" "alice" None 1)) (read_write 1 0)).
Proof. repeat split. Qed.

(** ** Trashed ancestors *)

Lemma exists_inactive_true s z :
  exists_inactive s z = true
  ↔ ∃ e, e ∈ tabDriveEntity s ∧ DriveEntity.name e = z ∧ DriveEntity.is_active e = 0.
Proof.
  unfold exists_inactive. rewrite bool_decide_eq_true, Exists_exists. split.
  - intros (e & ? & ? & ?). eauto.
  - intros (e & ? & ? & ?). eauto.
Qed.

Lemma ancestor_flag_true s l :
  ancestor_flag s l = true ↔ ∃ z, z ∈ l ∧ exists_inactive s z = true.
Proof.
  induction l as [|z l IH]; simpl.
  - split; [discriminate|]. intros (z & Hz & _). by apply not_elem_of_nil in Hz.
  - destruct (exists_inactive s z) eqn:Hz.
    + split; [|done]. intros _. exists z. split; [apply list_elem_of_here | done].
    + rewrite IH. split.
      * intros (z' & Hin & H'). exists z'. split; [by apply list_elem_of_further | done].
      * intros (z' & Hin & H'). apply elem_of_cons in Hin as [-> | Hin]; [congruence|].
        by exists z'.
Qed.

(** ** A caller who passes the permission check and asks for an entity
    that exists *)

Section Permitted.

Context (s : site) (entity_name : string) (e : DriveEntity.row) (st : viewed).

Hypothesis permitted :
  get_general_access s entity_name ≠ []
  ∨ has_permission s "Drive Entity" entity_name "read" (session_user s) = true.

Hypothesis found : get_entity s entity_name = Ok e.

(** What is left of the gate after the permission check and the lookup. *)
Lemma gate_permitted :
  get_entity_with_permissions s entity_name st =
  if ancestor_flag s (get_ancestors_of s "Drive Entity" e)
  then (Raise (ValidationError msg_parent_deleted), st)
  else
    let st' :=
      if negb (bool_decide (session_user s = "Guest"))
         && negb (truthy_int (DriveEntity.is_group e))
      then (entity_name, session_user s) :: st
      else st in
    if negb (truthy_int (DriveEntity.is_active e))
    then (Raise (ValidationError msg_trashed), st')
    else
      let content := get_doc_content s (default "" (DriveEntity.document e)) in
      let user_access := get_user_access s (DriveEntity.name e) in
      (Ok (if bool_decide (DriveEntity.owner e = session_user s)
           then if truthy_str (DriveEntity.document e)
                then dict_or (entity_dict e) content
                else entity_dict e
           else if truthy_str (DriveEntity.document e)
                then dict_or (dict_or (entity_dict e) user_access) content
                else dict_or (entity_dict e) user_access),
       st').
Proof.
  rewrite gate_run, found.
  destruct permitted as [Hg | Hp].
  - by rewrite (bool_decide_eq_false_2 _ Hg).
  - by rewrite Hp, andb_false_r.
Qed.

(** C1, as the code has it: when the signed-in user owns the entity and the
    checks of the gate pass, [get_entity_with_permissions] returns the
    fields of the entity (under the content of its document when it has
    one) and never calls [get_user_access], so no share row shapes the
    value; the fields of the entity hold no [read], [write] or [share] key.
    [get_user_access] itself never looks at the Drive Entity table, where
    ownership is recorded. *)
Theorem owner_gets_entity_fields :
  DriveEntity.owner e = session_user s →
  ancestor_flag s (get_ancestors_of s "Drive Entity" e) = false →
  truthy_int (DriveEntity.is_active e) = true →
  (get_entity_with_permissions s entity_name st).1
  = Ok (if truthy_str (DriveEntity.document e)
        then dict_or (entity_dict e)
               (get_doc_content s (default "" (DriveEntity.document e)))
        else entity_dict e)
  ∧ (entity_dict e !! "read" = None ∧ entity_dict e !! "write" = None
     ∧ entity_dict e !! "share" = None)
  ∧ (∀ s', session_user s' = session_user s →
           tabDriveDocShare s' = tabDriveDocShare s →
           tabUserGroupMember s' = tabUserGroupMember s →
           any_value s' = any_value s →
           get_user_access s' entity_name = get_user_access s entity_name).
Proof.
  intros Ho Hanc Hact. split; [|split].
  - rewrite gate_permitted, Hanc, Hact. simpl.
    by rewrite (bool_decide_eq_true_2 _ Ho).
  - repeat split; apply entity_dict_no_access; auto.
  - intros s'. apply get_user_access_ignores_entities.
Qed.

(** C4, as the code has it: for a caller who passes the permission check
    (the entity has an everyone or public grant, or Frappe grants the caller
    read), an existing entity with a trashed ancestor makes the gate raise
    "Parent Folder has been deleted" and write nothing, whoever the caller
    is and whether or not the entity itself is trashed; that failure differs
    from the "trashed" one. *)
Theorem deleted_ancestor_blocks (z : string) (a : DriveEntity.row) :
  z ∈ get_ancestors_of s "Drive Entity" e →
  a ∈ tabDriveEntity s →
  DriveEntity.name a = z →
  DriveEntity.is_active a = 0 →
  get_entity_with_permissions s entity_name st
  = (Raise (ValidationError msg_parent_deleted), st)
  ∧ ValidationError msg_parent_deleted ≠ ValidationError msg_trashed.
Proof.
  intros Hz Ha Hname Hact. split; [|discriminate].
  rewrite gate_permitted.
  assert (ancestor_flag s (get_ancestors_of s "Drive Entity" e) = true) as ->; [|done].
  apply ancestor_flag_true. exists z. split; [done|].
  apply exists_inactive_true. by exists a.
Qed.

(** The "trashed" failure: the entity itself is inactive. *)
Lemma trashed_entity_raises :
  ancestor_flag s (get_ancestors_of s "Drive Entity" e) = false →
  truthy_int (DriveEntity.is_active e) = false →
  (get_entity_with_permissions s entity_name st).1 = Raise (ValidationError msg_trashed).
Proof. intros Hanc Hact. by rewrite gate_permitted, Hanc, Hact. Qed.

(** C7 fails on the code: a signed-in caller who passes the permission
    and ancestor checks and asks for a trashed file gets the "trashed"
    failure, and the view has been recorded by then. *)
Theorem trashed_view_is_recorded :
  ancestor_flag s (get_ancestors_of s "Drive Entity" e) = false →
  session_user s ≠ "Guest" →
  truthy_int (DriveEntity.is_group e) = false →
  truthy_int (DriveEntity.is_active e) = false →
  get_entity_with_permissions s entity_name st
  = (Raise (ValidationError msg_trashed), (entity_name, session_user s) :: st).
Proof.
  intros Hanc Hu Hgrp Hact.
  by rewrite gate_permitted, Hanc, Hgrp, Hact, (bool_decide_eq_false_2 _ Hu).
Qed.

End Permitted.

(** ** Ownership, trashed ancestors and recently viewed on the sample sites *)

(** alice asks for her own F on [site_owner] and gets its fields. *)
Lemma owner_gets_entity_fields_witness :
  (get_entity_with_permissions site_owner "F" []).1
  = Ok (entity_dict (file "F" "alice" None 1)).
Proof.
  refine (proj1 (owner_gets_entity_fields site_owner "F" (file "F" "alice" None 1) []
                   _ _ _ _ _)).
  - right. reflexivity.
  - reflexivity.
  - reflexivity.
  - reflexivity.
  - reflexivity.
Defined.

(** C1 as stated fails: alice owns F on [site_owner], yet
    [get_user_access] answers [{read: 0, write: 0}], not the full
    decision. *)
Lemma owner_not_resolved_to_full_access :
  get_entity site_owner "F" = Ok (file "F" "alice" None 1)
  ∧ DriveEntity.owner (file "F" "alice" None 1) = session_user site_owner
  ∧ get_user_access site_owner "F" = read_write 0 0
  ∧ get_user_access site_owner "F" ≠ full_access.
Proof.
  repeat split. change (get_user_access site_owner "F") with (read_write 0 0).
  apply read_write_not_full.
Qed.

(** alice owns Leaf, but its parent Mid is trashed. *)
Lemma deleted_ancestor_blocks_witness :
  get_entity_with_permissions site_chain_owner "Leaf" []
  = (Raise (ValidationError msg_parent_deleted), []).
Proof.
  refine (proj1 (deleted_ancestor_blocks site_chain_owner "Leaf"
                   (file "Leaf" "alice" (Some "Mid") 1) [] _ _ "Mid"
                   (folder "Mid" "alice" (Some "Root") 0) _ _ _ _)).
  - right. reflexivity.
  - reflexivity.
  - in_list.
  - in_list.
  - reflexivity.
  - reflexivity.
Defined.

(** C4 as stated fails for some callers: Leaf lies under the trashed Mid on
    [site_chain_stranger], yet carol, who has no permission on it, gets
    PermissionError and not the ancestor failure. *)
Lemma deleted_ancestor_not_reported_to_stranger :
  get_entity site_chain_stranger "Leaf" = Ok (file "Leaf" "alice" (Some "Mid") 1)
  ∧ "Mid" ∈ get_ancestors_of site_chain_stranger "Drive Entity"
              (file "Leaf" "alice" (Some "Mid") 1)
  ∧ exists_inactive site_chain_stranger "Mid" = true
  ∧ get_entity_with_permissions site_chain_stranger "Leaf" []
    = (Raise (PermissionError msg_not_permitted), [])
  ∧ PermissionError msg_not_permitted ≠ ValidationError msg_parent_deleted.
Proof.
  split; [reflexivity|]. split; [in_list|].
  split; [reflexivity|]. split; [reflexivity | discriminate].
Qed.

(** bob asks for the trashed F on [site_trashed]: the call fails and the
    view is on record. *)
Lemma trashed_view_is_recorded_witness :
  get_entity_with_permissions site_trashed "F" []
  = (Raise (ValidationError msg_trashed), [("F", "bob")]).
Proof.
  refine (trashed_view_is_recorded site_trashed "F" (file "F" "alice" None 0) []
            _ _ _ _ _ _).
  - right. reflexivity.
  - reflexivity.
  - reflexivity.
  - discriminate.
  - reflexivity.
  - reflexivity.
Defined.

(** ** The share listings *)

Lemma elem_of_list_filter {A} (f : A → bool) (l : list A) x :
  x ∈ List.filter f l ↔ x ∈ l ∧ f x = true.
Proof. rewrite !list_elem_of_In. apply filter_In. Qed.

Lemma not_in_names_spec {A} (name : A → string) parent (rows : list A) y :
  not_in_names parent (name <$> rows) = true → y ∈ rows → parent ≠ Some (name y).
Proof.
  intros Hn Hy ->. simpl in Hn. apply negb_true_iff, bool_decide_eq_false in Hn.
  apply Hn. by apply list_elem_of_fmap_2.
Qed.

Lemma shared_by_me_sorted s order_by rows :
  get_shared_by_me s false order_by = Ok rows →
  ∃ result, rows = List.filter
                     (λ x, not_in_names (row_parent x) ((λ x, row_name x) <$> result))
                     result.
Proof.
  unfold get_shared_by_me. destruct (first_word order_by); [|discriminate].
  destruct (orderby s _ _ _) as [result|]; [|discriminate].
  intros [= <-]. by exists result.
Qed.

Lemma shared_with_me_sorted s order_by rows :
  get_shared_with_me s false order_by = Ok rows →
  ∃ result, rows = List.filter
                     (λ x, not_in_names (row_parent x) ((λ x, row_name x) <$> result)
                           && negb (bool_decide (row_owner x = session_user s)))
                     result.
Proof.
  unfold get_shared_with_me. destruct (first_word order_by); [|discriminate].
  destruct (orderby s _ _ _) as [result|]; [|discriminate].
  intros [= <-]. by exists result.
Qed.

(** C9: in the sorted mode of both listings, no returned row has as its
    parent the name of a row of the same result. *)
Theorem listing_keeps_highest_level (s : site) (order_by : string)
    (rows : list shared_row) (x y : shared_row) :
  get_shared_by_me s false order_by = Ok rows
    ∨ get_shared_with_me s false order_by = Ok rows →
  x ∈ rows → y ∈ rows →
  row_parent x ≠ Some (row_name y).
Proof.
  intros [H | H] Hx Hy.
  - apply shared_by_me_sorted in H as [result ->].
    apply elem_of_list_filter in Hx as [_ Hx], Hy as [Hy _].
    by apply (not_in_names_spec (λ x, row_name x) _ result).
  - apply shared_with_me_sorted in H as [result ->].
    apply elem_of_list_filter in Hx as [_ Hx], Hy as [Hy _].
    apply andb_true_iff in Hx as [Hx _].
    by apply (not_in_names_spec (λ x, row_name x) _ result).
Qed.

(** The row for the folder Docs that bob is shown on [site_tree_bob]. *)
Lemma docs_listed :
  get_shared_with_me site_tree_bob false "modified desc"
  = Ok [ docs_row ].
Proof. reflexivity. Qed.

(** Report, whose parent Docs is listed, is dropped; Docs has no listed
    parent. *)
Lemma listing_keeps_highest_level_witness :
  row_parent docs_row
  ≠ Some "Docs".
Proof.
  refine (listing_keeps_highest_level site_tree_bob "modified desc" [docs_row]
            docs_row docs_row (or_intror docs_listed) _ _); in_list.
Defined.

(** C8, as the code has it: in the sorted mode the shared-with-me listing
    never holds an entity the signed-in user owns. *)
Theorem sorted_shared_with_me_excludes_owned (s : site) (order_by : string)
    (rows : list shared_row) (x : shared_row) :
  get_shared_with_me s false order_by = Ok rows →
  x ∈ rows →
  row_owner x ≠ session_user s.
Proof.
  intros H Hx. apply shared_with_me_sorted in H as [result ->].
  apply elem_of_list_filter in Hx as [_ Hx].
  apply andb_true_iff in Hx as [_ Hx].
  by apply negb_true_iff, bool_decide_eq_false in Hx.
Qed.

(** Docs, listed for bob, is alice's. *)
Lemma sorted_shared_with_me_excludes_owned_witness :
  row_owner docs_row
  ≠ session_user site_tree_bob.
Proof.
  refine (sorted_shared_with_me_excludes_owned site_tree_bob "modified desc"
            [docs_row] docs_row docs_listed _); in_list.
Defined.

(** C8 as stated fails in the get_all mode: alice has shared her own F
    with everyone on [site_own_everyone], and the unfiltered rows she gets
    hold F. *)
Lemma get_all_shared_with_me_holds_owned :
  ∃ rows x, get_shared_with_me site_own_everyone true "modified" = Ok rows
            ∧ x ∈ rows
            ∧ row_owner x = session_user site_own_everyone.
Proof.
  eexists _, _. split; [reflexivity|]. split; [in_list | reflexivity].
Qed.

(** ** Joins, WHERE and GROUP BY *)

Lemma elem_of_inner_join {A B} (l : list A) (r : list B) on a b :
  (a, b) ∈ inner_join l r on ↔ a ∈ l ∧ b ∈ r ∧ sql_true (on a b) = true.
Proof.
  unfold inner_join. rewrite list_elem_of_bind. split.
  - intros (a' & Hab & Ha'). apply list_elem_of_fmap in Hab as (b' & [= -> ->] & Hb').
    apply list_elem_of_filter in Hb' as [Hon Hb']. apply Is_true_true in Hon. done.
  - intros (Ha & Hb & Hon). exists a. split; [|done].
    apply list_elem_of_fmap. exists b. split; [done|].
    apply list_elem_of_filter. split; [by apply Is_true_true | done].
Qed.

Lemma elem_of_where {A} (cond : A → option bool) (rows : list A) x :
  x ∈ where_ cond rows ↔ sql_true (cond x) = true ∧ x ∈ rows.
Proof. unfold where_. rewrite list_elem_of_filter, Is_true_true. done. Qed.

Lemma elem_of_distinct seen keys k :
  k ∈ distinct seen keys ↔ k ∈ keys ∧ k ∉ seen.
Proof.
  revert seen. induction keys as [|k' keys IH]; intros seen; simpl.
  - split; [by intros ?%not_elem_of_nil | by intros [?%not_elem_of_nil _]].
  - case_bool_decide as Hk'.
    + rewrite IH, elem_of_cons. split.
      * intros [? ?]. auto.
      * intros [[-> | ?] ?]; [done | auto].
    + rewrite !elem_of_cons, IH, elem_of_cons. split.
      * intros [-> | [? Hn]]; [auto|]. split; [auto|]. intros ?. apply Hn. auto.
      * intros [[-> | Hk] Hs]; [by left|].
        destruct (decide (k = k')) as [-> | Hne]; [by left | right].
        split; [done|]. by intros [? | ?].
Qed.

Lemma elem_of_groupby {A B} s (key : A → string) (select : A → list A → B) rows y :
  y ∈ groupby s key select rows
  ↔ ∃ x g, filter (λ r, key r = key x) rows = x :: g
           ∧ y = select (any_value s A x g) (x :: g).
Proof.
  unfold groupby. rewrite list_elem_of_omap. split.
  - intros (k & Hk & Hsel). destruct (filter _ rows) as [|x g] eqn:Hf; [discriminate|].
    injection Hsel as <-. exists x, g. split; [|done].
    assert (x ∈ filter (λ r, key r = k) rows) as Hx by (rewrite Hf; apply list_elem_of_here).
    apply list_elem_of_filter in Hx as [<- _]. done.
  - intros (x & g & Hf & ->). exists (key x). rewrite Hf. split; [|done].
    apply elem_of_distinct. split; [|apply not_elem_of_nil].
    apply list_elem_of_fmap_2.
    assert (x ∈ filter (λ r, key r = key x) rows) as Hx by (rewrite Hf; apply list_elem_of_here).
    by apply list_elem_of_filter in Hx as [_ ?].
Qed.

Lemma groupby_nil {A B} s (key : A → string) (select : A → list A → B) rows :
  groupby s key select rows = [] ↔ rows = [].
Proof.
  split; [|by intros ->].
  destruct rows as [|x rows]; [done|]. intros Hnil. exfalso.
  destruct (filter (λ r, key r = key x) (x :: rows)) as [|x' g] eqn:Hf.
  - assert (x ∈ filter (λ r, key r = key x) (x :: rows)) as Hx
      by (apply list_elem_of_filter; split; [done | apply list_elem_of_here]).
    rewrite Hf in Hx. by apply not_elem_of_nil in Hx.
  - assert (key x' = key x) as Hk.
    { assert (x' ∈ filter (λ r, key r = key x) (x :: rows)) as Hx'
        by (rewrite Hf; apply list_elem_of_here).
      by apply list_elem_of_filter in Hx' as [? _]. }
    rewrite <- Hk in Hf.
    assert (select (any_value s A x' g) (x' :: g) ∈ groupby s key select (x :: rows)) as Hy
      by (apply elem_of_groupby; eauto).
    rewrite Hnil in Hy. by apply not_elem_of_nil in Hy.
Qed.

(** ** Group grants *)

(** The rows of the join of [user_group_entity_access] that pass its
    WHERE. *)
Lemma elem_of_group_rows s entity_name d m :
  (d, m) ∈ where_ (λ '(d, m),
               sql_and (sql_eq (Some (DriveDocShare.share_name d)) (Some entity_name))
                       (sql_eq (Some (UserGroupMember.user m)) (Some (session_user s))))
            (inner_join (tabDriveDocShare s) (tabUserGroupMember s)
               (λ d m, sql_eq (Some (UserGroupMember.parent m)) (DriveDocShare.user_name d)))
  ↔ d ∈ tabDriveDocShare s ∧ m ∈ tabUserGroupMember s
    ∧ DriveDocShare.share_name d = entity_name
    ∧ UserGroupMember.user m = session_user s
    ∧ Some (UserGroupMember.parent m) = DriveDocShare.user_name d.
Proof.
  rewrite elem_of_where, elem_of_inner_join. simpl.
  destruct (DriveDocShare.user_name d) as [g|]; simpl;
    repeat case_bool_decide; simpl; intuition congruence.
Qed.

Lemma elem_of_matching s entity_name d :
  d ∈ matching_group_grants s entity_name
  ↔ d ∈ tabDriveDocShare s ∧ DriveDocShare.share_name d = entity_name
    ∧ ∃ m, m ∈ tabUserGroupMember s ∧ UserGroupMember.user m = session_user s
           ∧ Some (UserGroupMember.parent m) = DriveDocShare.user_name d.
Proof.
  unfold matching_group_grants. rewrite list_elem_of_filter, Exists_exists. split.
  - intros [[? (m & ? & ? & ?)] ?]. eauto 10.
  - intros (? & ? & m & ? & ? & ?). eauto 10.
Qed.

Lemma NoDup_fmap_eq {A B} (f : A → B) (l : list A) x y :
  NoDup (f <$> l) → x ∈ l → y ∈ l → f x = f y → x = y.
Proof.
  induction l as [|z l IH]; simpl; [by intros _ ?%not_elem_of_nil|].
  rewrite NoDup_cons. intros [Hz Hl] Hx Hy Hf.
  apply elem_of_cons in Hx as [-> | Hx], Hy as [-> | Hy]; [done| | |by apply IH].
  - exfalso. apply Hz. rewrite Hf. by apply list_elem_of_fmap_2.
  - exfalso. apply Hz. rewrite <- Hf. by apply list_elem_of_fmap_2.
Qed.

Lemma group_shares_sound s entity_name d :
  any_value_ok s →
  d ∈ group_shares s entity_name → d ∈ matching_group_grants s entity_name.
Proof.
  intros Hany Hd. unfold group_shares in Hd.
  apply elem_of_groupby in Hd as (x & g & Hf & ->).
  pose proof (Hany _ x g) as Hp. rewrite <- Hf in Hp.
  apply list_elem_of_filter in Hp as [_ Hp].
  destruct (any_value s _ x g) as [d' m'].
  apply elem_of_group_rows in Hp as (Hd' & Hm' & ? & ? & ?).
  apply elem_of_matching. eauto 10.
Qed.

Lemma groupby_of_row {A B} s (key : A → string) (select : A → list A → B) rows x0 :
  x0 ∈ rows →
  ∃ x g, filter (λ r, key r = key x0) rows = x :: g
         ∧ select (any_value s A x g) (x :: g) ∈ groupby s key select rows.
Proof.
  intros Hin.
  assert (x0 ∈ filter (λ r, key r = key x0) rows) as Hx0
    by (by apply list_elem_of_filter).
  destruct (filter (λ r, key r = key x0) rows) as [|x g] eqn:Hf;
    [by apply not_elem_of_nil in Hx0|].
  exists x, g. split; [done|]. apply elem_of_groupby. exists x, g. split; [|done].
  assert (x ∈ filter (λ r, key r = key x0) rows) as Hx
    by (rewrite Hf; apply list_elem_of_here).
  apply list_elem_of_filter in Hx as [-> _]. done.
Qed.

Lemma group_shares_complete s entity_name d :
  any_value_ok s →
  NoDup (UserGroupMember.name <$> tabUserGroupMember s) →
  NoDup (DriveDocShare.user_name <$> matching_group_grants s entity_name) →
  d ∈ matching_group_grants s entity_name → d ∈ group_shares s entity_name.
Proof.
  intros Hany Hmem Hgrants Hd.
  pose proof Hd as Hd0.
  apply elem_of_matching in Hd as (Hd & He & m & Hm & Hu & Hp).
  assert ((d, m) ∈ where_ (λ '(d, m),
               sql_and (sql_eq (Some (DriveDocShare.share_name d)) (Some entity_name))
                       (sql_eq (Some (UserGroupMember.user m)) (Some (session_user s))))
            (inner_join (tabDriveDocShare s) (tabUserGroupMember s)
               (λ d m, sql_eq (Some (UserGroupMember.parent m)) (DriveDocShare.user_name d))))
    as Hin by (by apply elem_of_group_rows).
  unfold group_shares.
  eapply (groupby_of_row s (λ '(_, m), UserGroupMember.name m) (λ '(d, _) _, d))
    in Hin as (x & g & Hf & Hy).
  pose proof (Hany _ x g) as Hrep. rewrite <- Hf in Hrep.
  apply list_elem_of_filter in Hrep as [Hk Hrep].
  destruct (any_value s _ x g) as [d' m']. simpl in Hk.
  apply elem_of_group_rows in Hrep as (Hd' & Hm' & He' & Hu' & Hp').
  assert (m' = m) as -> by (by apply (NoDup_fmap_eq UserGroupMember.name (tabUserGroupMember s))).
  assert (d' = d) as ->; [|done].
  apply (NoDup_fmap_eq DriveDocShare.user_name (matching_group_grants s entity_name));
    [done| |done|congruence].
  apply elem_of_matching. eauto 10.
Qed.

Lemma group_shares_nil s entity_name :
  group_shares s entity_name = [] ↔ matching_group_grants s entity_name = [].
Proof.
  unfold group_shares. rewrite groupby_nil. split; intros Hnil.
  - destruct (matching_group_grants s entity_name) as [|d l] eqn:Hm; [done|]. exfalso.
    assert (d ∈ matching_group_grants s entity_name) as Hd by (rewrite Hm; apply list_elem_of_here).
    apply elem_of_matching in Hd as (Hd & He & m & Hm' & Hu & Hp).
    assert ((d, m) ∈ @nil (DriveDocShare.row * UserGroupMember.row)) as Hin
      by (rewrite <- Hnil; by apply elem_of_group_rows).
    by apply not_elem_of_nil in Hin.
  - destruct (where_ _ _) as [|[d m] l] eqn:Hw; [done|]. exfalso.
    assert ((d, m) ∈ (d, m) :: l) as Hin by apply list_elem_of_here.
    rewrite <- Hw in Hin. apply elem_of_group_rows in Hin as (Hd & Hm & ? & ? & ?).
    assert (d ∈ matching_group_grants s entity_name) as Hd' by (apply elem_of_matching; eauto 10).
    rewrite Hnil in Hd'. by apply not_elem_of_nil in Hd'.
Qed.

(** ** Maximum and disjunction of Check flags *)

Lemma any_flag_true flags :
  any_flag flags = true ↔ ∃ z, z ∈ flags ∧ truthy_int z = true.
Proof.
  unfold any_flag. rewrite existsb_exists. setoid_rewrite list_elem_of_In. done.
Qed.

Lemma any_flag_ext l l' :
  (∀ z, z ∈ l ↔ z ∈ l') → any_flag l = any_flag l'.
Proof.
  intros H. apply eq_true_iff_eq. rewrite !any_flag_true. by setoid_rewrite H.
Qed.

Lemma max_list_check x l :
  check_flag x → Forall check_flag l → max_list x l = Z.b2z (any_flag (x :: l)).
Proof.
  unfold max_list. revert x. induction l as [|y l IH]; intros x Hx Hl; simpl.
  - by destruct Hx as [-> | ->].
  - apply Forall_cons in Hl as [Hy Hl]. rewrite IH; [|by destruct Hx as [-> | ->], Hy as [-> | ->]; [left|right|right|right]|done].
    simpl. by destruct Hx as [-> | ->], Hy as [-> | ->].
Qed.

Lemma group_access_formula s entity_name :
  any_value_ok s →
  NoDup (UserGroupMember.name <$> tabUserGroupMember s) →
  NoDup (DriveDocShare.user_name <$> matching_group_grants s entity_name) →
  Forall (λ d, check_flag (DriveDocShare.read d) ∧ check_flag (DriveDocShare.write d))
         (matching_group_grants s entity_name) →
  user_group_entity_access s entity_name
  = if bool_decide (matching_group_grants s entity_name = []) then None
    else Some (read_write
                 (Z.b2z (any_flag (DriveDocShare.read <$> matching_group_grants s entity_name)))
                 (Z.b2z (any_flag (DriveDocShare.write <$> matching_group_grants s entity_name)))).
Proof.
  intros Hany Hmem Hgrants Hcheck.
  assert (∀ d, d ∈ group_shares s entity_name ↔ d ∈ matching_group_grants s entity_name) as Hiff.
  { intros d. split; [by apply group_shares_sound | by apply group_shares_complete]. }
  unfold user_group_entity_access.
  destruct (group_shares s entity_name) as [|d0 ds] eqn:Hg.
  - apply group_shares_nil in Hg. by rewrite (bool_decide_eq_true_2 _ Hg).
  - rewrite bool_decide_eq_false_2
      by (intros Hnil; apply group_shares_nil in Hnil; congruence).
    assert (Forall (λ d, check_flag (DriveDocShare.read d) ∧ check_flag (DriveDocShare.write d))
                   (d0 :: ds)) as Hc.
    { apply Forall_forall. intros d Hd. apply Hiff in Hd.
      by apply (proj1 (Forall_forall _ _) Hcheck). }
    apply Forall_cons in Hc as [[Hr0 Hw0] Hc]. simpl.
    rewrite !max_list_check; [| done | | done |].
    + rewrite <- !fmap_cons. f_equal. f_equal; f_equal.
      * apply any_flag_ext. intros z.
        rewrite !list_elem_of_fmap. by setoid_rewrite Hiff.
      * apply any_flag_ext. intros z.
        rewrite !list_elem_of_fmap. by setoid_rewrite Hiff.
    + apply Forall_fmap. eapply Forall_impl; [exact Hc|]. by intros ? [_ ?].
    + apply Forall_fmap. eapply Forall_impl; [exact Hc|]. by intros ? [? _].
Qed.

Lemma matching_Permutation s s' entity_name :
  session_user s' = session_user s →
  tabDriveDocShare s' ≡ₚ tabDriveDocShare s →
  tabUserGroupMember s' ≡ₚ tabUserGroupMember s →
  matching_group_grants s' entity_name ≡ₚ matching_group_grants s entity_name.
Proof.
  intros Hu Hd Hm. unfold matching_group_grants. rewrite Hu, Hd.
  erewrite list_filter_iff; [reflexivity|].
  intros d. simpl. rewrite !Exists_exists. by setoid_rewrite Hm.
Qed.

(** C6, as the code has it: the query keeps one row for each membership
    row of the user.  When the user-group memberships have distinct names
    (their primary key), the group grants on the entity name distinct groups
    and their flags are 0 or 1, [user_group_entity_access] returns False
    ([None]) if no grant matches and otherwise the logical OR of the read
    flags and of the write flags of the matching grants; the answer is then
    the same for every order of the share rows and of the membership rows. *)
Theorem group_access_is_union (s : site) (entity_name : string) :
  any_value_ok s →
  NoDup (UserGroupMember.name <$> tabUserGroupMember s) →
  NoDup (DriveDocShare.user_name <$> matching_group_grants s entity_name) →
  Forall (λ d, check_flag (DriveDocShare.read d) ∧ check_flag (DriveDocShare.write d))
         (matching_group_grants s entity_name) →
  user_group_entity_access s entity_name
  = (if bool_decide (matching_group_grants s entity_name = []) then None
     else Some (read_write
                  (Z.b2z (any_flag (DriveDocShare.read <$> matching_group_grants s entity_name)))
                  (Z.b2z (any_flag (DriveDocShare.write <$> matching_group_grants s entity_name)))))
  ∧ (∀ s', session_user s' = session_user s →
           tabDriveDocShare s' ≡ₚ tabDriveDocShare s →
           tabUserGroupMember s' ≡ₚ tabUserGroupMember s →
           any_value_ok s' →
           user_group_entity_access s' entity_name = user_group_entity_access s entity_name).
Proof.
  intros Hany Hmem Hgrants Hcheck.
  pose proof (group_access_formula s entity_name Hany Hmem Hgrants Hcheck) as Hs.
  split; [exact Hs|].
  intros s' Hu Hd Hm Hany'.
  pose proof (matching_Permutation s s' entity_name Hu Hd Hm) as Hperm.
  rewrite Hs, (group_access_formula s' entity_name Hany').
  - assert (bool_decide (matching_group_grants s' entity_name = [])
            = bool_decide (matching_group_grants s entity_name = [])) as ->.
    { apply bool_decide_ext. split; intros Hnil; rewrite Hnil in Hperm.
      - by apply Permutation_nil_l in Hperm.
      - by apply Permutation_nil_r in Hperm. }
    case_bool_decide; [done|]. f_equal. f_equal; f_equal.
    + apply any_flag_ext. intros z. by rewrite Hperm.
    + apply any_flag_ext. intros z. by rewrite Hperm.
  - by rewrite Hm.
  - by rewrite Hperm.
  - by rewrite Hperm.
Qed.

Lemma first_value_ok (s : site) : any_value s = first_value → any_value_ok s.
Proof. intros H A x l. rewrite H. apply list_elem_of_here. Qed.

(** On [site_groups] the read-only grant to G and the write-only grant to H
    add up to read and write. *)
Lemma group_access_is_union_witness :
  user_group_entity_access site_groups "F" = Some (read_write 1 1).
Proof.
  refine (proj1 (group_access_is_union site_groups "F" _ _ _ _)).
  - apply first_value_ok. reflexivity.
  - apply NoDup_cons. split; [|apply NoDup_singleton].
    intros H. apply list_elem_of_singleton in H. discriminate H.
  - apply NoDup_cons. split; [|apply NoDup_singleton].
    intros H. apply list_elem_of_singleton in H. discriminate H.
  - apply Forall_cons. split; [split; [by right | by left]|].
    apply Forall_cons. split; [split; [by left | by right]|]. by apply Forall_nil.
Defined.

Lemma read_write_inj r w r' w' : read_write r w = read_write r' w' → r = r' ∧ w = w'.
Proof.
  intros H.
  pose proof (f_equal (λ m : dict, m !! "read") H) as Hr.
  pose proof (f_equal (λ m : dict, m !! "write") H) as Hw.
  simpl in Hr, Hw. unfold read_write in Hr, Hw.
  rewrite lookup_insert_eq in Hr.
  rewrite lookup_insert_ne, lookup_insert_eq in Hw by done.
  by injection Hr as ->; injection Hw as ->.
Qed.

(** C6 as stated fails when two share rows name the same group: on
    [site_duplicate] the matching grants are read-only and write-only for
    G, their OR is read and write, but whichever row the engine lets stand
    for bob's one membership row, the answer is that row alone; with the
    first row standing for the group, swapping the two rows changes it. *)
Lemma duplicate_group_rows_not_united :
  matching_group_grants site_duplicate "F" = [read_only_G; write_only_G]
  ∧ any_flag (DriveDocShare.read <$> [read_only_G; write_only_G]) = true
  ∧ any_flag (DriveDocShare.write <$> [read_only_G; write_only_G]) = true
  ∧ (∀ pick : (∀ A : Type, A → list A → A),
       (∀ (A : Type) (x : A) (l : list A), pick A x l ∈ x :: l) →
       user_group_entity_access (with_any_value pick site_duplicate) "F"
       ≠ Some (read_write 1 1))
  ∧ tabDriveDocShare site_duplicate_swapped ≡ₚ tabDriveDocShare site_duplicate
  ∧ user_group_entity_access site_duplicate "F" = Some (read_write 1 0)
  ∧ user_group_entity_access site_duplicate_swapped "F" = Some (read_write 0 1).
Proof.
  split; [reflexivity|]. split; [reflexivity|]. split; [reflexivity|].
  split; [|split; [apply Permutation_swap | split; reflexivity]].
  intros pick Hpick.
  pose proof (Hpick _ (read_only_G, member "m1" "G" "bob")
                [(write_only_G, member "m1" "G" "bob")]) as Hp.
  assert (user_group_entity_access (with_any_value pick site_duplicate) "F"
          = Some (docshare_read_write
                    (pick _ (read_only_G, member "m1" "G" "bob")
                       [(write_only_G, member "m1" "G" "bob")]).1)) as ->.
  { unfold user_group_entity_access, group_shares, groupby. simpl.
    by destruct (pick _ _ _). }
  apply elem_of_cons in Hp as [-> | Hp]; [|apply list_elem_of_singleton in Hp as ->];
    intros [= H]; apply read_write_inj in H as [? ?]; discriminate.
Qed.

(** * Further properties *)

(** ** Access resolution beyond the direct grant *)

Lemma find_none_iff {A} (f : A → bool) (l : list A) :
  List.find f l = None ↔ ∀ x, x ∈ l → f x = false.
Proof.
  split.
  - intros H x Hx. apply list_elem_of_In in Hx. by apply (find_none f l H).
  - intros H. destruct (List.find f l) as [x|] eqn:Hf; [|done].
    apply find_some in Hf as [Hin Hfx]. apply list_elem_of_In in Hin.
    rewrite (H x Hin) in Hfx. discriminate.
Qed.

Lemma find_elem {A} (f : A → bool) (l : list A) x :
  List.find f l = Some x → x ∈ l ∧ f x = true.
Proof. intros H. apply find_some in H as [? ?]. by rewrite list_elem_of_In. Qed.

Lemma user_group_entity_access_None s entity_name :
  user_group_entity_access s entity_name = None
  ↔ matching_group_grants s entity_name = [].
Proof.
  rewrite <- group_shares_nil. unfold user_group_entity_access.
  by destruct (group_shares s entity_name).
Qed.

Lemma truthy_group_access s entity_name :
  truthy_dict (user_group_entity_access s entity_name)
  = bool_decide (matching_group_grants s entity_name ≠ []).
Proof.
  destruct (user_group_entity_access s entity_name) as [g|] eqn:Hg.
  - destruct (user_group_entity_access_shape s entity_name) as [H | (r & w & H)];
      [congruence|].
    rewrite Hg in H. injection H as ->. simpl.
    rewrite (bool_decide_eq_false_2 _ (read_write_nonempty r w)). simpl.
    symmetry. apply bool_decide_eq_true_2. intros Hnil.
    apply user_group_entity_access_None in Hnil. congruence.
  - apply user_group_entity_access_None in Hg. simpl.
    symmetry. apply bool_decide_eq_false_2. by intros ?.
Qed.

(** What [get_user_access] returns to a signed-in user without a direct
    row. *)
Lemma get_user_access_no_direct s entity_name :
  session_user s ≠ "Guest" →
  List.find (user_filters entity_name (session_user s)) (tabDriveDocShare s) = None →
  get_user_access s entity_name =
  match user_group_entity_access s entity_name with
  | Some g => g
  | None =>
      match List.find (everyone_filters entity_name) (tabDriveDocShare s) with
      | Some d => docshare_read_write d
      | None =>
          match List.find (public_filters entity_name) (tabDriveDocShare s) with
          | Some d => docshare_read_write d
          | None => read_write 0 0
          end
      end
  end.
Proof.
  intros Hu Hdirect. unfold get_user_access.
  rewrite (bool_decide_eq_false_2 _ Hu), (get_value_None _ _ Hdirect). simpl.
  rewrite truthy_group_access.
  destruct (user_group_entity_access s entity_name) as [g|] eqn:Hg.
  - rewrite bool_decide_eq_true_2; [done|]. intros Hnil.
    apply user_group_entity_access_None in Hnil. congruence.
  - apply user_group_entity_access_None in Hg.
    rewrite bool_decide_eq_false_2 by (by intros ?). simpl.
    destruct (List.find (everyone_filters _) _) as [d|] eqn:He.
    + by destruct (get_value_Some s _ d He) as [-> ->].
    + rewrite (get_value_None s _ He). simpl.
      destruct (List.find (public_filters _) _) as [d|] eqn:Hp.
      * by destruct (get_value_Some s _ d Hp) as [-> ->].
      * by rewrite (get_value_None s _ Hp).
Qed.

(** X1: an entity without any share row resolves to
    [{read: 0, write: 0}] for every caller, signed in or not. *)
Theorem no_share_row_default_deny (s : site) (entity_name : string) :
  (∀ d, d ∈ tabDriveDocShare s → DriveDocShare.share_name d ≠ entity_name) →
  get_user_access s entity_name = read_write 0 0.
Proof.
  intros Hnone.
  assert (List.find (public_filters entity_name) (tabDriveDocShare s) = None) as Hp.
  { apply find_none_iff. intros d Hd. unfold public_filters.
    by rewrite (bool_decide_eq_false_2 _ (Hnone d Hd)). }
  destruct (decide (session_user s = "Guest")) as [Hg | Hg].
  - unfold get_user_access. rewrite (bool_decide_eq_true_2 _ Hg). simpl.
    by rewrite (get_value_None _ _ Hp).
  - rewrite get_user_access_no_direct; [|done|].
    + assert (matching_group_grants s entity_name = []) as Hm.
      { destruct (matching_group_grants s entity_name) as [|d l] eqn:Hm; [done|].
        assert (d ∈ matching_group_grants s entity_name) as Hd
          by (rewrite Hm; apply list_elem_of_here).
        apply elem_of_matching in Hd as (Hd & He & _). by destruct (Hnone d Hd). }
      apply user_group_entity_access_None in Hm. rewrite Hm, Hp.
      assert (List.find (everyone_filters entity_name) (tabDriveDocShare s) = None) as ->; [|done].
      apply find_none_iff. intros d Hd. unfold everyone_filters.
      by rewrite (bool_decide_eq_false_2 _ (Hnone d Hd)).
    + apply find_none_iff. intros d Hd. unfold user_filters.
      rewrite (bool_decide_eq_false_2 _ (Hnone d Hd)). by rewrite andb_false_r.
Qed.

(** carol asks about F on [site_unshared], where only G is shared. *)
Lemma no_share_row_default_deny_witness :
  get_user_access site_unshared "F" = read_write 0 0.
Proof.
  refine (no_share_row_default_deny site_unshared "F" _).
  intros d Hd. apply list_elem_of_singleton in Hd as ->. discriminate.
Defined.

(** X2: for a signed-in user without a direct row, a grant to one of
    the user's groups decides: the answer is the group aggregate, whatever
    the everyone and public rows of the entity hold. *)
Theorem group_grant_over_broadcast (s : site) (entity_name : string) :
  session_user s ≠ "Guest" →
  (∀ d, d ∈ tabDriveDocShare s → user_filters entity_name (session_user s) d = false) →
  matching_group_grants s entity_name ≠ [] →
  user_group_entity_access s entity_name = Some (get_user_access s entity_name).
Proof.
  intros Hu Hdirect Hm. apply find_none_iff in Hdirect.
  rewrite (get_user_access_no_direct s entity_name Hu Hdirect).
  destruct (user_group_entity_access s entity_name) as [g|] eqn:Hg; [done|].
  by apply user_group_entity_access_None in Hg.
Qed.

(** X3: for a signed-in user without a direct row and without a
    matching group grant, the first everyone row of the entity decides; the
    first public row does only when there is no everyone row; with neither
    the answer is [{read: 0, write: 0}]. *)
Theorem broadcast_fallback (s : site) (entity_name : string) :
  session_user s ≠ "Guest" →
  (∀ d, d ∈ tabDriveDocShare s → user_filters entity_name (session_user s) d = false) →
  matching_group_grants s entity_name = [] →
  get_user_access s entity_name
  = match List.find (everyone_filters entity_name) (tabDriveDocShare s) with
    | Some d => docshare_read_write d
    | None =>
        match List.find (public_filters entity_name) (tabDriveDocShare s) with
        | Some d => docshare_read_write d
        | None => read_write 0 0
        end
    end.
Proof.
  intros Hu Hdirect Hm. apply find_none_iff in Hdirect.
  rewrite (get_user_access_no_direct s entity_name Hu Hdirect).
  apply user_group_entity_access_None in Hm. by rewrite Hm.
Qed.

Lemma group_grant_over_broadcast_witness :
  user_group_entity_access site_groups "F" = Some (get_user_access site_groups "F").
Proof.
  refine (group_grant_over_broadcast site_groups "F" _ _ _).
  - discriminate.
  - intros d Hd.
    apply elem_of_cons in Hd as [-> | Hd]; [reflexivity|].
    apply list_elem_of_singleton in Hd as ->. reflexivity.
  - discriminate.
Defined.

(** On [site_broadcast] the read-only everyone row decides for carol,
    although the public row, met first, would let her write. *)
Lemma broadcast_fallback_witness :
  get_user_access site_broadcast "F" = read_write 1 0.
Proof.
  refine (broadcast_fallback site_broadcast "F" _ _ _).
  - discriminate.
  - intros d Hd.
    apply elem_of_cons in Hd as [-> | Hd]; [reflexivity|].
    apply elem_of_cons in Hd as [-> | Hd]; [reflexivity|].
    apply list_elem_of_singleton in Hd as ->. reflexivity.
  - reflexivity.
Defined.

Lemma max_list_elem x l : max_list x l ∈ x :: l.
Proof.
  unfold max_list. revert x. induction l as [|y l IH]; intros x; simpl.
  - apply list_elem_of_here.
  - pose proof (IH (Z.max x y)) as H. apply elem_of_cons in H as [H | H].
    + rewrite H. destruct (Z.max_spec x y) as [[_ ->] | [_ ->]].
      * apply list_elem_of_further, list_elem_of_here.
      * apply list_elem_of_here.
    + by do 2 apply list_elem_of_further.
Qed.

Lemma max_list_ge x l y : y ∈ x :: l → y ≤ max_list x l.
Proof.
  unfold max_list. revert x y. induction l as [|z l IH]; intros x y Hy; simpl.
  - apply list_elem_of_singleton in Hy as ->. lia.
  - apply elem_of_cons in Hy as [-> | Hy].
    + etrans; [|apply (IH _ _ (list_elem_of_here _ _))]. lia.
    + apply elem_of_cons in Hy as [-> | Hy].
      * etrans; [|apply (IH _ _ (list_elem_of_here _ _))]. lia.
      * by apply IH, list_elem_of_further.
Qed.

Lemma get_user_access_guest s entity_name :
  session_user s = "Guest" →
  get_user_access s entity_name
  = match List.find (public_filters entity_name) (tabDriveDocShare s) with
    | Some d => docshare_read_write d
    | None => read_write 0 0
    end.
Proof.
  intros Hu. unfold get_user_access. rewrite (bool_decide_eq_true_2 _ Hu). simpl.
  destruct (List.find _ _) as [d|] eqn:Hf.
  - by destruct (get_value_Some s _ d Hf) as [-> ->].
  - by rewrite (get_value_None s _ Hf).
Qed.

Lemma group_access_attained s entity_name g :
  any_value_ok s →
  user_group_entity_access s entity_name = Some g →
  ∃ d1 d2, d1 ∈ matching_group_grants s entity_name
           ∧ d2 ∈ matching_group_grants s entity_name
           ∧ g = read_write (DriveDocShare.read d1) (DriveDocShare.write d2).
Proof.
  intros Hany. unfold user_group_entity_access.
  destruct (group_shares s entity_name) as [|d ds] eqn:Hg; [discriminate|].
  intros [= <-].
  pose proof (max_list_elem (DriveDocShare.read d) (DriveDocShare.read <$> ds)) as Hr.
  pose proof (max_list_elem (DriveDocShare.write d) (DriveDocShare.write <$> ds)) as Hw.
  rewrite <- fmap_cons in Hr, Hw.
  apply list_elem_of_fmap in Hr as (d1 & -> & Hd1), Hw as (d2 & -> & Hd2).
  rewrite <- Hg in Hd1, Hd2.
  exists d1, d2. split; [|split; [|done]]; by apply group_shares_sound.
Qed.

(** X4: the aggregate over the groups never exceeds the grants it is
    built from: the read flag it returns is the read flag of a matching
    grant and its write flag the write flag of a matching grant, and it is
    False ([None]) exactly when no grant matches. *)
Theorem group_access_within_grants (s : site) (entity_name : string) :
  any_value_ok s →
  (user_group_entity_access s entity_name = None
   ↔ matching_group_grants s entity_name = [])
  ∧ (∀ g, user_group_entity_access s entity_name = Some g →
          ∃ d1 d2, d1 ∈ matching_group_grants s entity_name
                   ∧ d2 ∈ matching_group_grants s entity_name
                   ∧ g = read_write (DriveDocShare.read d1) (DriveDocShare.write d2)).
Proof.
  intros Hany. split; [apply user_group_entity_access_None|].
  intros g. by apply group_access_attained.
Qed.

Lemma group_access_within_grants_witness :
  user_group_entity_access site_duplicate "F" = None
  ↔ matching_group_grants site_duplicate "F" = [].
Proof.
  refine (proj1 (group_access_within_grants site_duplicate "F" _)).
  apply first_value_ok. reflexivity.
Defined.

(** X5: no access out of thin air: a non-zero read (write) flag
    returned by [get_user_access] is the read (write) flag of a share row of
    that very entity. *)
Theorem access_comes_from_a_share_row (s : site) (entity_name : string) (r w : Z) :
  any_value_ok s →
  get_user_access s entity_name = read_write r w →
  (r ≠ 0 → ∃ d, d ∈ tabDriveDocShare s
                ∧ DriveDocShare.share_name d = entity_name
                ∧ DriveDocShare.read d = r)
  ∧ (w ≠ 0 → ∃ d, d ∈ tabDriveDocShare s
                  ∧ DriveDocShare.share_name d = entity_name
                  ∧ DriveDocShare.write d = w).
Proof.
  intros Hany Hget.
  assert (∀ f d, List.find f (tabDriveDocShare s) = Some d →
                 (∀ d', f d' = true → DriveDocShare.share_name d' = entity_name) →
                 read_write r w = docshare_read_write d →
                 (∃ d, d ∈ tabDriveDocShare s ∧ DriveDocShare.share_name d = entity_name
                       ∧ DriveDocShare.read d = r)
                 ∧ (∃ d, d ∈ tabDriveDocShare s ∧ DriveDocShare.share_name d = entity_name
                         ∧ DriveDocShare.write d = w)) as Hrow.
  { intros f d Hf Hname Heq. apply find_elem in Hf as [Hd Hfd].
    apply read_write_inj in Heq as [-> ->]. split; exists d; auto. }
  assert (∀ d', public_filters entity_name d' = true →
                DriveDocShare.share_name d' = entity_name) as Hpub.
  { intros d' H. unfold public_filters in H.
    apply andb_true_iff in H as [H _]. by apply bool_decide_eq_true in H. }
  assert (∀ d', everyone_filters entity_name d' = true →
                DriveDocShare.share_name d' = entity_name) as Hev.
  { intros d' H. unfold everyone_filters in H.
    apply andb_true_iff in H as [H _]. by apply bool_decide_eq_true in H. }
  assert (∀ d', user_filters entity_name (session_user s) d' = true →
                DriveDocShare.share_name d' = entity_name) as Hus.
  { intros d' H. unfold user_filters in H.
    apply andb_true_iff in H as [H _]. apply andb_true_iff in H as [H _].
    apply andb_true_iff in H as [_ H]. by apply bool_decide_eq_true in H. }
  assert (read_write r w = read_write 0 0 → (r ≠ 0 → False) ∧ (w ≠ 0 → False)) as Hzero.
  { intros H. apply read_write_inj in H as [-> ->]. done. }
  destruct (decide (session_user s = "Guest")) as [Hg | Hg].
  - rewrite (get_user_access_guest s entity_name Hg) in Hget.
    destruct (List.find (public_filters entity_name) (tabDriveDocShare s)) as [d|] eqn:Hp.
    + destruct (Hrow _ d Hp Hpub (eq_sym Hget)). by split.
    + destruct (Hzero (eq_sym Hget)). split; intros; exfalso; auto.
  - destruct (List.find (user_filters entity_name (session_user s)) (tabDriveDocShare s))
      as [d|] eqn:Hd.
    + rewrite (get_user_access_direct s entity_name d Hg Hd) in Hget.
      destruct (Hrow _ d Hd Hus (eq_sym Hget)). by split.
    + rewrite (get_user_access_no_direct s entity_name Hg Hd) in Hget.
      destruct (user_group_entity_access s entity_name) as [g|] eqn:Hgr.
      * destruct (group_access_attained s entity_name g Hany Hgr)
          as (d1 & d2 & Hd1 & Hd2 & ->).
        apply read_write_inj in Hget as [<- <-].
        apply elem_of_matching in Hd1 as (? & ? & _), Hd2 as (? & ? & _).
        split; intros _; [by exists d1 | by exists d2].
      * destruct (List.find (everyone_filters _) _) as [de|] eqn:He.
        { destruct (Hrow _ de He Hev (eq_sym Hget)). by split. }
        destruct (List.find (public_filters _) _) as [dp|] eqn:Hp.
        { destruct (Hrow _ dp Hp Hpub (eq_sym Hget)). by split. }
        destruct (Hzero (eq_sym Hget)). split; intros; exfalso; auto.
Qed.

Lemma access_comes_from_a_share_row_witness :
  ∃ d, d ∈ tabDriveDocShare site_groups
       ∧ DriveDocShare.share_name d = "F" ∧ DriveDocShare.read d = 1.
Proof.
  refine (proj1 (access_comes_from_a_share_row site_groups "F" 1 1 _ _) _).
  - apply first_value_ok. reflexivity.
  - reflexivity.
  - discriminate.
Defined.

(** ** GROUP BY keeps one row per key *)

Lemma NoDup_distinct seen keys : NoDup (distinct seen keys).
Proof.
  revert seen. induction keys as [|k keys IH]; intros seen; simpl; [apply NoDup_nil_2|].
  case_bool_decide; [apply IH|]. apply NoDup_cons. split; [|apply IH].
  rewrite elem_of_distinct. intros [_ Hk]. apply Hk, list_elem_of_here.
Qed.

Lemma groupby_keys {A B} s (key : A → string) (select : A → list A → B)
    (key' : B → string) rows :
  any_value_ok s →
  (∀ r g, key' (select r g) = key r) →
  key' <$> groupby s key select rows = distinct [] (key <$> rows).
Proof.
  intros Hany Hsel. unfold groupby.
  set (f := λ k, match filter (λ r, key r = k) rows with
                 | [] => None
                 | x :: g => Some (select (any_value s A x g) (x :: g))
                 end).
  assert (∀ k, k ∈ key <$> rows → ∃ y, f k = Some y ∧ key' y = k) as Hf.
  { intros k Hk. apply list_elem_of_fmap in Hk as (x0 & -> & Hx0). unfold f.
    destruct (filter (λ r, key r = key x0) rows) as [|x g] eqn:Hfil.
    - assert (x0 ∈ filter (λ r, key r = key x0) rows) as Hx
        by (by apply list_elem_of_filter).
      rewrite Hfil in Hx. by apply not_elem_of_nil in Hx.
    - eexists. split; [done|]. rewrite Hsel.
      pose proof (Hany _ x g) as Hrep. rewrite <- Hfil in Hrep.
      by apply list_elem_of_filter in Hrep as [? _]. }
  assert (∀ ks : list string, (∀ k, k ∈ ks → k ∈ key <$> rows) →
                              key' <$> omap f ks = ks) as Hks.
  { induction ks as [|k ks IH]; intros Hin; [done|].
    destruct (Hf k) as (y & Hy & Hk); [apply Hin, list_elem_of_here|].
    cbn. rewrite Hy. cbn. rewrite Hk. f_equal.
    apply IH. intros k' Hk'. by apply Hin, list_elem_of_further. }
  apply Hks. intros k Hk. by apply elem_of_distinct in Hk as [? _].
Qed.

Lemma groupby_NoDup {A B} s (key : A → string) (select : A → list A → B)
    (key' : B → string) rows :
  any_value_ok s →
  (∀ r g, key' (select r g) = key r) →
  NoDup (key' <$> groupby s key select rows).
Proof. intros Hany Hsel. rewrite (groupby_keys s key select key' rows Hany Hsel). apply NoDup_distinct. Qed.

(** The row a GROUP BY returns for a group is built from a row of that
    group. *)
Lemma groupby_from_row {A B} s (key : A → string) (select : A → list A → B) rows y :
  any_value_ok s →
  y ∈ groupby s key select rows →
  ∃ r g, r ∈ rows ∧ r ∈ g ∧ g = filter (λ r', key r' = key r) rows ∧ y = select r g.
Proof.
  intros Hany Hy. apply elem_of_groupby in Hy as (x & g & Hf & ->).
  pose proof (Hany _ x g) as Hrep.
  assert (key (any_value s A x g) = key x ∧ any_value s A x g ∈ rows) as [Hk Hin].
  { rewrite <- Hf in Hrep. by apply list_elem_of_filter in Hrep. }
  exists (any_value s A x g), (x :: g). split; [done|]. split; [done|].
  split; [|done]. by rewrite Hk.
Qed.

(** ** [get_general_access] *)

Lemma elem_of_general_rows s entity_name d :
  d ∈ where_ (λ d,
               sql_and (sql_eq (Some (DriveDocShare.share_name d)) (Some entity_name))
                       (sql_or (sql_eq (Some (DriveDocShare.everyone d)) (Some 1))
                               (sql_eq (Some (DriveDocShare.public d)) (Some 1))))
       (tabDriveDocShare s)
  ↔ d ∈ tabDriveDocShare s ∧ DriveDocShare.share_name d = entity_name
    ∧ (DriveDocShare.everyone d = 1 ∨ DriveDocShare.public d = 1).
Proof.
  rewrite elem_of_where. simpl. repeat case_bool_decide; simpl; intuition congruence.
Qed.

(** X6: [get_general_access] is empty exactly when no share row of the
    entity is an everyone or a public row; this is when the gate asks for
    the read permission. *)
Theorem general_access_empty_iff (s : site) (entity_name : string) :
  get_general_access s entity_name = []
  ↔ ∀ d, d ∈ tabDriveDocShare s → DriveDocShare.share_name d = entity_name →
         DriveDocShare.everyone d ≠ 1 ∧ DriveDocShare.public d ≠ 1.
Proof.
  unfold get_general_access. rewrite groupby_nil. split.
  - intros Hnil d Hd He.
    destruct (decide (DriveDocShare.everyone d = 1)) as [H1 | H1];
      [|destruct (decide (DriveDocShare.public d = 1)) as [H2 | H2]; [|done]];
      exfalso;
      (assert (d ∈ @nil DriveDocShare.row) as Hin
         by (rewrite <- Hnil; apply elem_of_general_rows; auto));
      by apply not_elem_of_nil in Hin.
  - intros Hnone. destruct (where_ _ _) as [|d l] eqn:Hw; [done|]. exfalso.
    assert (d ∈ d :: l) as Hin by apply list_elem_of_here.
    rewrite <- Hw in Hin. apply elem_of_general_rows in Hin as (Hd & He & Hor).
    destruct (Hnone d Hd He) as [? ?]. by destruct Hor.
Qed.

(** X7: every row [get_general_access] returns is an everyone or
    public share row of the entity, and no two returned rows have the same
    name. *)
Theorem general_access_rows (s : site) (entity_name : string) :
  any_value_ok s →
  (∀ d, d ∈ get_general_access s entity_name →
        d ∈ tabDriveDocShare s ∧ DriveDocShare.share_name d = entity_name
        ∧ (DriveDocShare.everyone d = 1 ∨ DriveDocShare.public d = 1))
  ∧ NoDup (DriveDocShare.name <$> get_general_access s entity_name).
Proof.
  intros Hany. split.
  - intros d Hd. unfold get_general_access in Hd.
    apply groupby_from_row in Hd as (r & g & Hr & _ & _ & ->); [|done].
    by apply elem_of_general_rows.
  - unfold get_general_access. by apply groupby_NoDup.
Qed.

Lemma general_access_rows_witness :
  NoDup (DriveDocShare.name <$> get_general_access site_broadcast "F").
Proof.
  refine (proj2 (general_access_rows site_broadcast "F" _)).
  apply first_value_ok. reflexivity.
Defined.

(** ** More on the gate *)

Lemma permitted_bool s entity_name :
  bool_decide (get_general_access s entity_name = [])
  && negb (has_permission s "Drive Entity" entity_name "read" (session_user s)) = false
  ↔ permitted s entity_name.
Proof.
  unfold permitted. case_bool_decide as Hg; simpl.
  - destruct (has_permission s _ _ _ _); simpl.
    + split; [by right | done].
    + split; [done | by intros [? | ?]].
  - split; [by left | done].
Qed.

Lemma get_entity_name s entity_name e :
  get_entity s entity_name = Ok e → DriveEntity.name e = entity_name.
Proof.
  unfold get_entity. destruct (List.find _ _) as [e'|] eqn:Hf; [|discriminate].
  intros [= ->]. apply find_some in Hf as [_ Hf]. by apply bool_decide_eq_true in Hf.
Qed.

(** X8: the gate returns the entity exactly when the caller passes the
    permission check, the entity exists, none of its ancestors is trashed
    and it is active itself. *)
Theorem gate_succeeds_iff (s : site) (entity_name : string) (st : viewed) :
  (∃ v, (get_entity_with_permissions s entity_name st).1 = Ok v)
  ↔ permitted s entity_name
    ∧ ∃ e, get_entity s entity_name = Ok e
           ∧ ancestor_flag s (get_ancestors_of s "Drive Entity" e) = false
           ∧ truthy_int (DriveEntity.is_active e) = true.
Proof.
  rewrite gate_run, <- permitted_bool.
  destruct (bool_decide _ && negb _); simpl.
  - split; [by intros [v ?] | by intros [? _]].
  - destruct (get_entity s entity_name) as [e|x]; simpl.
    + destruct (ancestor_flag s _) eqn:Hanc; simpl.
      * split; [by intros [v ?]|]. intros [_ (e' & [= <-] & ? & _)]. congruence.
      * destruct (truthy_int (DriveEntity.is_active e)) eqn:Hact; simpl.
        -- split; [|by eauto]. intros _. split; [done|]. by exists e.
        -- split; [by intros [v ?]|]. intros [_ (e' & [= <-] & _ & ?)]. congruence.
    + split; [by intros [v ?]|]. intros [_ (e' & ? & _)]. done.
Qed.

(** X9: the recently-viewed record is written exactly when a signed-in
    caller passes the permission check for an existing entity that is not a
    folder and has no trashed ancestor, be the entity itself trashed or
    not; what is written is one record, for that entity and that user, in
    front of the records there were. *)
Theorem viewed_written_exactly_when (s : site) (entity_name : string) (st : viewed) :
  let written :=
    permitted s entity_name
    ∧ session_user s ≠ "Guest"
    ∧ ∃ e, get_entity s entity_name = Ok e
           ∧ ancestor_flag s (get_ancestors_of s "Drive Entity" e) = false
           ∧ truthy_int (DriveEntity.is_group e) = false in
  (written →
   (get_entity_with_permissions s entity_name st).2 = (entity_name, session_user s) :: st)
  ∧ (¬ written → (get_entity_with_permissions s entity_name st).2 = st).
Proof.
  simpl. rewrite gate_run, <- permitted_bool.
  destruct (bool_decide _ && negb _); simpl.
  - split; [by intros [? _] | done].
  - destruct (get_entity s entity_name) as [e|x]; simpl.
    + destruct (ancestor_flag s _) eqn:Hanc; simpl.
      * split; [|done]. intros (_ & _ & e' & [= <-] & ? & _). congruence.
      * case_bool_decide as Hu; simpl.
        { assert (∀ b (x y : result dict) (v : viewed), (if b : bool then (x, v) else (y, v)).2 = v)
            as Hif by (by intros []).
          rewrite Hif. split; [|done]. by intros (_ & ? & _). }
        destruct (truthy_int (DriveEntity.is_group e)) eqn:Hgrp; simpl.
        -- assert (∀ b (x y : result dict) (v : viewed), (if b : bool then (x, v) else (y, v)).2 = v)
             as Hif by (by intros []).
           rewrite Hif. split; [|done].
           intros (_ & _ & e' & [= <-] & _ & ?). congruence.
        -- assert (∀ b (x y : result dict) (v : viewed), (if b : bool then (x, v) else (y, v)).2 = v)
             as Hif by (by intros []).
           rewrite Hif. split; [done|]. intros Hnot. exfalso. apply Hnot.
           split; [done|]. split; [done|]. by exists e.
    + split; [|done]. intros (_ & _ & e' & ? & _). done.
Qed.

Lemma ancestor_flag_with_has_permission p s l :
  ancestor_flag (with_has_permission p s) l = ancestor_flag s l.
Proof. induction l as [|z l IH]; [done|]. cbn. by rewrite IH. Qed.

(** X10: an everyone or public grant opens the gate to every caller:
    when [get_general_access] is not empty, the outcome of the gate does not
    depend on what [frappe.has_permission] answers. *)
Theorem general_access_bypasses_permission (s : site) (entity_name : string)
    (st : viewed) (p : string → string → string → string → bool) :
  get_general_access s entity_name ≠ [] →
  get_entity_with_permissions (with_has_permission p s) entity_name st
  = get_entity_with_permissions s entity_name st.
Proof.
  intros Hg. rewrite !gate_run.
  change (get_general_access (with_has_permission p s) entity_name)
    with (get_general_access s entity_name).
  rewrite (bool_decide_eq_false_2 _ Hg).
  change (get_entity (with_has_permission p s) entity_name)
    with (get_entity s entity_name).
  cbn [andb]. destruct (get_entity s entity_name) as [e|x]; [|done].
  change (get_ancestors_of (with_has_permission p s)) with (get_ancestors_of s).
  change (session_user (with_has_permission p s)) with (session_user s).
  change (get_doc_content (with_has_permission p s)) with (get_doc_content s).
  rewrite ancestor_flag_with_has_permission.
  by rewrite (get_user_access_ignores_entities s (with_has_permission p s)).
Qed.

(** dave holds no permission on F, whose public grant lets him in. *)
Lemma general_access_bypasses_permission_witness :
  get_entity_with_permissions (with_has_permission (λ _ _ _ _, true) site_public_dave) "F" []
  = get_entity_with_permissions site_public_dave "F" [].
Proof.
  refine (general_access_bypasses_permission site_public_dave "F" [] _ _).
  discriminate.
Defined.

Lemma read_write_lookup r w k :
  read_write r w !! k
  = if decide (k = "read") then Some (VInt r)
    else if decide (k = "write") then Some (VInt w) else None.
Proof.
  unfold read_write. repeat case_decide; subst.
  - apply lookup_insert_eq.
  - rewrite lookup_insert_ne by done. apply lookup_insert_eq.
  - by rewrite !lookup_insert_ne by done.
Qed.

(** X11: what a caller who is not the owner gets back is the entity
    with the answer of [get_user_access] laid over it: under every key the
    attached document does not supply, [read] and [write] hold the resolved
    flags and every other key holds the field of the entity. *)
Theorem shared_entity_is_decorated (s : site) (entity_name : string)
    (e : DriveEntity.row) (st : viewed) :
  permitted s entity_name →
  get_entity s entity_name = Ok e →
  ancestor_flag s (get_ancestors_of s "Drive Entity" e) = false →
  truthy_int (DriveEntity.is_active e) = true →
  DriveEntity.owner e ≠ session_user s →
  ∃ v, (get_entity_with_permissions s entity_name st).1 = Ok v
       ∧ ∀ k, (if truthy_str (DriveEntity.document e)
               then get_doc_content s (default "" (DriveEntity.document e))
               else ∅) !! k = None →
              v !! k = if decide (k = "read" ∨ k = "write")
                       then get_user_access s entity_name !! k
                       else entity_dict e !! k.
Proof.
  intros Hperm He Hanc Hact Hown.
  rewrite gate_run, He, Hanc, Hact, (proj2 (permitted_bool s entity_name) Hperm). simpl.
  rewrite (bool_decide_eq_false_2 _ Hown), (get_entity_name s entity_name e He).
  eexists. split; [reflexivity|]. intros k Hk.
  destruct (get_user_access_shape s entity_name) as (r & w & Hrw). rewrite Hrw.
  assert (dict_or (entity_dict e) (read_write r w) !! k
          = if decide (k = "read" ∨ k = "write") then read_write r w !! k
            else entity_dict e !! k) as Hmerge.
  { unfold dict_or. case_decide as Hrw'.
    - apply lookup_union_l'. rewrite read_write_lookup.
      destruct Hrw' as [-> | ->]; repeat case_decide; by eauto.
    - apply lookup_union_r. rewrite read_write_lookup.
      repeat case_decide; subst; tauto. }
  destruct (truthy_str (DriveEntity.document e)).
  - unfold dict_or at 1. rewrite (lookup_union_r _ _ _ Hk). exact Hmerge.
  - exact Hmerge.
Qed.

(** bob gets F on [site_reader] with his read-only flags. *)
Lemma shared_entity_is_decorated_witness :
  ∃ v, (get_entity_with_permissions site_reader "F" []).1 = Ok v
       ∧ ∀ k, (∅ : dict) !! k = None →
              v !! k = if decide (k = "read" ∨ k = "write")
                       then get_user_access site_reader "F" !! k
                       else entity_dict (file "F" "alice" None 1) !! k.
Proof.
  refine (shared_entity_is_decorated site_reader "F" (file "F" "alice" None 1) [] _ _ _ _ _).
  - right. reflexivity.
  - reflexivity.
  - reflexivity.
  - reflexivity.
  - discriminate.
Defined.

(** ** Left joins *)

Lemma elem_of_left_join {A B} (l : list A) (r : list B) on a ob :
  (a, ob) ∈ left_join l r on
  ↔ a ∈ l ∧ match ob with
            | Some b => b ∈ r ∧ sql_true (on a b) = true
            | None => ∀ b, b ∈ r → sql_true (on a b) = false
            end.
Proof.
  unfold left_join. rewrite list_elem_of_bind. split.
  - intros (a' & Hin & Ha').
    destruct (filter (λ b, sql_true (on a' b)) r) as [|b0 bs] eqn:Hf.
    + apply list_elem_of_singleton in Hin as [= -> ->]. split; [done|].
      intros b Hb. destruct (sql_true (on a' b)) eqn:Hon; [|done]. exfalso.
      assert (b ∈ filter (λ b, sql_true (on a' b)) r) as Hb'
        by (apply list_elem_of_filter; split; [by apply Is_true_true | done]).
      rewrite Hf in Hb'. by apply not_elem_of_nil in Hb'.
    + apply list_elem_of_fmap in Hin as (b & [= -> ->] & Hb). rewrite <- Hf in Hb.
      apply list_elem_of_filter in Hb as [Hon Hb]. apply Is_true_true in Hon. done.
  - intros [Ha Hob]. exists a. split; [|done].
    destruct ob as [b|].
    + destruct Hob as [Hb Hon].
      assert (b ∈ filter (λ b, sql_true (on a b)) r) as Hb'
        by (apply list_elem_of_filter; split; [by apply Is_true_true | done]).
      destruct (filter (λ b, sql_true (on a b)) r) as [|b0 bs];
        [by apply not_elem_of_nil in Hb'|].
      apply list_elem_of_fmap. by exists b.
    + destruct (filter (λ b, sql_true (on a b)) r) as [|b0 bs] eqn:Hf;
        [apply list_elem_of_here|]. exfalso.
      assert (b0 ∈ filter (λ b, sql_true (on a b)) r) as Hb0
        by (rewrite Hf; apply list_elem_of_here).
      apply list_elem_of_filter in Hb0 as [Hon Hb0]. apply Is_true_true in Hon.
      rewrite (Hob b0 Hb0) in Hon. discriminate.
Qed.

Lemma left_join_total {A B} (l : list A) (r : list B) on a :
  a ∈ l → ∃ ob, (a, ob) ∈ left_join l r on.
Proof.
  intros Ha. destruct (filter (λ b, sql_true (on a b)) r) as [|b0 bs] eqn:Hf.
  - exists None. apply elem_of_left_join. split; [done|]. intros b Hb.
    destruct (sql_true (on a b)) eqn:Hon; [|done]. exfalso.
    assert (b ∈ filter (λ b, sql_true (on a b)) r) as Hb'
      by (apply list_elem_of_filter; split; [by apply Is_true_true | done]).
    rewrite Hf in Hb'. by apply not_elem_of_nil in Hb'.
  - exists (Some b0). apply elem_of_left_join. split; [done|].
    assert (b0 ∈ filter (λ b, sql_true (on a b)) r) as Hb0
      by (rewrite Hf; apply list_elem_of_here).
    apply list_elem_of_filter in Hb0 as [Hon Hb0]. by apply Is_true_true in Hon.
Qed.

Lemma sql_true_eq {A} `{EqDecision A} (x y : A) :
  sql_true (sql_eq (Some x) (Some y)) = true ↔ x = y.
Proof. simpl. case_bool_decide; split; done. Qed.

Lemma sql_true_and a b : sql_true (sql_and a b) = true ↔ sql_true a = true ∧ sql_true b = true.
Proof. destruct a as [[]|], b as [[]|]; simpl; split; intros; try done; by destruct H. Qed.

Lemma sql_true_or a b : sql_true (sql_or a b) = true ↔ sql_true a = true ∨ sql_true b = true.
Proof. destruct a as [[]|], b as [[]|]; simpl; split; intros; auto; by destruct H. Qed.

Lemma sql_true_eq_opt {A} `{EqDecision A} (x : option A) (y : A) :
  sql_true (sql_eq x (Some y)) = true ↔ x = Some y.
Proof.
  destruct x as [x|]; simpl; [|by split].
  case_bool_decide; split; intros; try done; congruence.
Qed.

Lemma sql_true_ne_opt {A} `{EqDecision A} (x : option A) (y : A) :
  sql_true (sql_ne x (Some y)) = true ↔ ∃ x', x = Some x' ∧ x' ≠ y.
Proof.
  destruct x as [x|]; simpl.
  - case_bool_decide; simpl; split; intros; try done.
    + destruct H0 as (x' & [= <-] & ?). done.
    + by exists x.
  - split; [done|]. by intros (x' & ? & _).
Qed.

(** ** The rows behind the listings *)

Lemma shared_with_me_query_rows s :
  shared_with_me_query s
  = groupby s (λ '(e, _, _, _), DriveEntity.name e)
      (λ '(e, d, _, f) g,
         {| row_entity := e;
            row_full_name := None;
            row_user_image := None;
            row_read := Some (DriveDocShare.read d);
            row_write := Some (max_list (DriveDocShare.write d)
                                 ((λ '(_, d', _, _), DriveDocShare.write d') <$> g));
            row_everyone := Some (DriveDocShare.everyone d);
            row_share := Some (DriveDocShare.share d);
            is_favourite := DriveFavourite.entity <$> f |})
      (shared_with_me_rows s).
Proof. reflexivity. Qed.

Lemma shared_by_me_query_rows s :
  shared_by_me_query s
  = groupby s (λ '(e, _, _, _), DriveEntity.name e)
      (λ '(e, d, u, f) _,
         {| row_entity := e;
            row_full_name := u ≫= User.full_name;
            row_user_image := u ≫= User.user_image;
            row_read := DriveDocShare.read <$> d;
            row_write := DriveDocShare.write <$> d;
            row_everyone := DriveDocShare.everyone <$> d;
            row_share := DriveDocShare.share <$> d;
            is_favourite := DriveFavourite.entity <$> f |})
      (shared_by_me_rows s).
Proof. reflexivity. Qed.

Lemma sql_true_eq_opt_r {A} `{EqDecision A} (x : A) (y : option A) :
  sql_true (sql_eq (Some x) y) = true ↔ Some x = y.
Proof.
  destruct y as [y|]; simpl; [|by split].
  case_bool_decide; split; intros; try done; congruence.
Qed.

Lemma elem_of_shared_with_me_rows s e d om fv :
  (e, d, om, fv) ∈ shared_with_me_rows s
  ↔ e ∈ tabDriveEntity s ∧ d ∈ tabDriveDocShare s
    ∧ DriveDocShare.share_name d = DriveEntity.name e
    ∧ match om with
      | Some m => m ∈ tabUserGroupMember s
                  ∧ Some (UserGroupMember.parent m) = DriveDocShare.user_name d
      | None => ∀ m, m ∈ tabUserGroupMember s →
                     Some (UserGroupMember.parent m) ≠ DriveDocShare.user_name d
      end
    ∧ match fv with
      | Some f => f ∈ tabDriveFavourite s
                  ∧ DriveFavourite.entity f = DriveEntity.name e
                  ∧ DriveFavourite.user f = session_user s
      | None => ∀ f, f ∈ tabDriveFavourite s →
                     ¬ (DriveFavourite.entity f = DriveEntity.name e
                        ∧ DriveFavourite.user f = session_user s)
      end
    ∧ DriveEntity.is_active e = 1
    ∧ ((∃ m, om = Some m ∧ UserGroupMember.user m = session_user s)
       ∨ DriveDocShare.user_name d = Some (session_user s)
       ∨ DriveDocShare.everyone d = 1).
Proof.
  unfold shared_with_me_rows. cbv zeta.
  rewrite elem_of_where, !elem_of_left_join, elem_of_inner_join.
  rewrite sql_true_and, !sql_true_or.
  assert (sql_true (sql_eq (UserGroupMember.user <$> om) (Some (session_user s))) = true
          ↔ ∃ m, om = Some m ∧ UserGroupMember.user m = session_user s) as ->.
  { rewrite sql_true_eq_opt. destruct om as [m|]; simpl.
    - split; [intros [= ?]; by exists m | intros (m' & [= <-] & ->); done].
    - split; [done | by intros (m' & ? & _)]. }
  assert (match om with
          | Some b => b ∈ tabUserGroupMember s
                      ∧ sql_true (sql_eq (Some (UserGroupMember.parent b))
                                    (DriveDocShare.user_name d)) = true
          | None => ∀ b, b ∈ tabUserGroupMember s →
                         sql_true (sql_eq (Some (UserGroupMember.parent b))
                                     (DriveDocShare.user_name d)) = false
          end
          ↔ match om with
            | Some m => m ∈ tabUserGroupMember s
                        ∧ Some (UserGroupMember.parent m) = DriveDocShare.user_name d
            | None => ∀ m, m ∈ tabUserGroupMember s →
                           Some (UserGroupMember.parent m) ≠ DriveDocShare.user_name d
            end) as ->.
  { destruct om as [m|].
    - by rewrite sql_true_eq_opt_r.
    - split; intros H m Hm; specialize (H m Hm).
      + intros Heq. apply sql_true_eq_opt_r in Heq. congruence.
      + apply not_true_is_false. by rewrite sql_true_eq_opt_r. }
  assert (match fv with
          | Some b => b ∈ tabDriveFavourite s
                      ∧ sql_true (sql_and
                           (sql_eq (Some (DriveFavourite.entity b)) (Some (DriveEntity.name e)))
                           (sql_eq (Some (DriveFavourite.user b)) (Some (session_user s)))) = true
          | None => ∀ b, b ∈ tabDriveFavourite s →
                         sql_true (sql_and
                           (sql_eq (Some (DriveFavourite.entity b)) (Some (DriveEntity.name e)))
                           (sql_eq (Some (DriveFavourite.user b)) (Some (session_user s)))) = false
          end
          ↔ match fv with
            | Some f => f ∈ tabDriveFavourite s
                        ∧ DriveFavourite.entity f = DriveEntity.name e
                        ∧ DriveFavourite.user f = session_user s
            | None => ∀ f, f ∈ tabDriveFavourite s →
                           ¬ (DriveFavourite.entity f = DriveEntity.name e
                              ∧ DriveFavourite.user f = session_user s)
            end) as ->.
  { destruct fv as [f|].
    - by rewrite sql_true_and, !sql_true_eq.
    - split; intros H f Hf; specialize (H f Hf).
      + intros Heq.
        assert (sql_true (sql_and
                  (sql_eq (Some (DriveFavourite.entity f)) (Some (DriveEntity.name e)))
                  (sql_eq (Some (DriveFavourite.user f)) (Some (session_user s)))) = true)
          by (by rewrite sql_true_and, !sql_true_eq).
        congruence.
      + apply not_true_is_false. by rewrite sql_true_and, !sql_true_eq. }
  rewrite !sql_true_eq, sql_true_eq_opt. tauto.
Qed.

Lemma elem_of_left_join_with {A B} (l : list A) (r : list B) on a ob (Q : B → Prop) :
  (∀ b, sql_true (on a b) = true ↔ Q b) →
  (a, ob) ∈ left_join l r on
  ↔ a ∈ l ∧ match ob with
            | Some b => b ∈ r ∧ Q b
            | None => ∀ b, b ∈ r → ¬ Q b
            end.
Proof.
  intros HQ. rewrite elem_of_left_join. destruct ob as [b|].
  - by rewrite HQ.
  - split; intros [Ha H]; (split; [done|]); intros b Hb; specialize (H b Hb).
    + rewrite <- HQ. congruence.
    + apply not_true_is_false. by rewrite HQ.
Qed.

Lemma elem_of_shared_by_me_rows s e od ou fv :
  (e, od, ou, fv) ∈ shared_by_me_rows s
  ↔ e ∈ tabDriveEntity s
    ∧ match od with
      | Some d => d ∈ tabDriveDocShare s
                  ∧ (DriveDocShare.share_name d = DriveEntity.name e
                     ∧ DriveEntity.owner e = session_user s)
      | None => ∀ d, d ∈ tabDriveDocShare s →
                     ¬ (DriveDocShare.share_name d = DriveEntity.name e
                        ∧ DriveEntity.owner e = session_user s)
      end
    ∧ match ou with
      | Some u => u ∈ tabUser s ∧ DriveEntity.owner e = User.email u
      | None => ∀ u, u ∈ tabUser s → ¬ DriveEntity.owner e = User.email u
      end
    ∧ match fv with
      | Some f => f ∈ tabDriveFavourite s
                  ∧ (DriveFavourite.entity f = DriveEntity.name e
                     ∧ DriveFavourite.user f = session_user s)
      | None => ∀ f, f ∈ tabDriveFavourite s →
                     ¬ (DriveFavourite.entity f = DriveEntity.name e
                        ∧ DriveFavourite.user f = session_user s)
      end
    ∧ DriveEntity.is_active e = 1
    ∧ ((∃ v, od ≫= DriveDocShare.user_name = Some v ∧ v ≠ session_user s)
       ∨ DriveDocShare.everyone <$> od = Some 1
       ∨ DriveDocShare.public <$> od = Some 1).
Proof.
  unfold shared_by_me_rows. cbv zeta. rewrite elem_of_where.
  rewrite (elem_of_left_join_with _ _ _ (e, od, ou) fv
             (λ f, DriveFavourite.entity f = DriveEntity.name e
                   ∧ DriveFavourite.user f = session_user s))
    by (intros f; by rewrite sql_true_and, !sql_true_eq).
  rewrite (elem_of_left_join_with _ _ _ (e, od) ou
             (λ u, DriveEntity.owner e = User.email u))
    by (intros u; by rewrite sql_true_eq).
  rewrite (elem_of_left_join_with _ _ _ e od
             (λ d, DriveDocShare.share_name d = DriveEntity.name e
                   ∧ DriveEntity.owner e = session_user s))
    by (intros d; by rewrite sql_true_and, !sql_true_eq).
  rewrite sql_true_and, !sql_true_or, sql_true_eq, !sql_true_eq_opt, sql_true_ne_opt.
  tauto.
Qed.

(** ** What the listings hold *)

Lemma not_in_names_true {A} (name : A → string) parent (rows : list A) :
  not_in_names parent (name <$> rows) = true
  ↔ ∀ y, y ∈ rows → parent ≠ Some (name y).
Proof.
  split; [intros H y Hy; by eapply not_in_names_spec|].
  intros H. destruct parent as [p|]; [|done]. simpl.
  apply negb_true_iff, bool_decide_eq_false. intros Hp.
  apply list_elem_of_fmap in Hp as (y & -> & Hy). by apply (H y Hy).
Qed.

Lemma shared_with_me_sorted_elem s order_by rows x :
  orderby_ok s →
  get_shared_with_me s false order_by = Ok rows →
  x ∈ rows
  ↔ x ∈ shared_with_me_query s
    ∧ row_owner x ≠ session_user s
    ∧ ∀ y, y ∈ shared_with_me_query s → row_parent x ≠ Some (row_name y).
Proof.
  intros Hord. unfold get_shared_with_me.
  destruct (first_word order_by) as [field|]; [|discriminate].
  destruct (orderby s _ _ _) as [result|] eqn:Ho; [|discriminate].
  apply Hord in Ho. intros [= <-].
  rewrite elem_of_list_filter, andb_true_iff, negb_true_iff, bool_decide_eq_false.
  rewrite (not_in_names_true (λ x, row_name x)).
  split.
  - intros (Hx & Hp & Ho'). rewrite <- Ho. split; [done|]. split; [done|].
    intros y Hy. apply Hp. by rewrite Ho.
  - intros (Hx & Ho' & Hp). rewrite Ho. split; [done|]. split; [|done].
    intros y Hy. apply Hp. by rewrite <- Ho.
Qed.

Lemma shared_by_me_sorted_elem s order_by rows x :
  orderby_ok s →
  get_shared_by_me s false order_by = Ok rows →
  x ∈ rows
  ↔ x ∈ shared_by_me_query s
    ∧ ∀ y, y ∈ shared_by_me_query s → row_parent x ≠ Some (row_name y).
Proof.
  intros Hord. unfold get_shared_by_me.
  destruct (first_word order_by) as [field|]; [|discriminate].
  destruct (orderby s _ _ _) as [result|] eqn:Ho; [|discriminate].
  apply Hord in Ho. intros [= <-].
  rewrite elem_of_list_filter, (not_in_names_true (λ x, row_name x)).
  split.
  - intros (Hx & Hp). rewrite <- Ho. split; [done|].
    intros y Hy. apply Hp. by rewrite Ho.
  - intros (Hx & Hp). rewrite Ho. split; [done|].
    intros y Hy. apply Hp. by rewrite <- Ho.
Qed.

Lemma shared_with_me_from_query s get_all order_by rows x :
  orderby_ok s →
  get_shared_with_me s get_all order_by = Ok rows →
  x ∈ rows → x ∈ shared_with_me_query s.
Proof.
  intros Hord Hget Hx. destruct get_all.
  - by injection Hget as <-.
  - by apply (shared_with_me_sorted_elem s order_by rows x Hord Hget) in Hx as [? _].
Qed.

Lemma shared_by_me_from_query s get_all order_by rows x :
  orderby_ok s →
  get_shared_by_me s get_all order_by = Ok rows →
  x ∈ rows → x ∈ shared_by_me_query s.
Proof.
  intros Hord Hget Hx. destruct get_all.
  - by injection Hget as <-.
  - by apply (shared_by_me_sorted_elem s order_by rows x Hord Hget) in Hx as [? _].
Qed.

(** X12: whatever the mode, every row of the shared-with-me listing is
    an active entity of the Drive Entity table with a share row that reaches
    the signed-in user (it names the user, everyone, or a group of the
    user), and the read, everyone and share columns shown are those of such
    a row. *)
Theorem shared_with_me_rows_reach_user (s : site) (get_all : bool)
    (order_by : string) (rows : list shared_row) (x : shared_row) :
  any_value_ok s →
  orderby_ok s →
  get_shared_with_me s get_all order_by = Ok rows →
  x ∈ rows →
  row_entity x ∈ tabDriveEntity s
  ∧ DriveEntity.is_active (row_entity x) = 1
  ∧ ∃ d, d ∈ tabDriveDocShare s
         ∧ DriveDocShare.share_name d = row_name x
         ∧ reaches s d
         ∧ row_read x = Some (DriveDocShare.read d)
         ∧ row_everyone x = Some (DriveDocShare.everyone d)
         ∧ row_share x = Some (DriveDocShare.share d).
Proof.
  intros Hany Hord Hget Hx.
  apply (shared_with_me_from_query s get_all order_by rows x Hord Hget) in Hx.
  rewrite shared_with_me_query_rows in Hx.
  apply groupby_from_row in Hx as ([[[e d] om] fv] & g & Hr & _ & _ & ->); [|done].
  apply elem_of_shared_with_me_rows in Hr as (He & Hd & Hn & Hm & _ & Hact & Hreach).
  simpl. split; [done|]. split; [done|]. exists d. repeat split; try done.
  unfold reaches. destruct Hreach as [(m & -> & Hu) | [? | ?]]; [|by auto..].
  right. right. apply Exists_exists. exists m. destruct Hm as [? ?]. done.
Qed.

(** X13: whatever the mode, every row of the shared-by-me listing is
    an active entity the signed-in user owns, with a share row that names
    somebody else, everyone or the public, and the read, write, everyone
    and share columns shown are those of such a row. *)
Theorem shared_by_me_rows_owned_and_shared (s : site) (get_all : bool)
    (order_by : string) (rows : list shared_row) (x : shared_row) :
  any_value_ok s →
  orderby_ok s →
  get_shared_by_me s get_all order_by = Ok rows →
  x ∈ rows →
  row_entity x ∈ tabDriveEntity s
  ∧ row_owner x = session_user s
  ∧ DriveEntity.is_active (row_entity x) = 1
  ∧ ∃ d, d ∈ tabDriveDocShare s
         ∧ DriveDocShare.share_name d = row_name x
         ∧ points_outward s d
         ∧ row_read x = Some (DriveDocShare.read d)
         ∧ row_write x = Some (DriveDocShare.write d)
         ∧ row_everyone x = Some (DriveDocShare.everyone d)
         ∧ row_share x = Some (DriveDocShare.share d).
Proof.
  intros Hany Hord Hget Hx.
  apply (shared_by_me_from_query s get_all order_by rows x Hord Hget) in Hx.
  rewrite shared_by_me_query_rows in Hx.
  apply groupby_from_row in Hx as ([[[e od] ou] fv] & g & Hr & _ & _ & ->); [|done].
  apply elem_of_shared_by_me_rows in Hr as (He & Hd & _ & _ & Hact & Hout).
  destruct od as [d|]; simpl in *.
  - destruct Hd as (Hd & Hn & Ho). split; [done|]. split; [done|]. split; [done|].
    exists d. repeat split; try done. unfold points_outward.
    destruct Hout as [(v & ? & ?) | [[= ?] | [= ?]]]; eauto.
  - destruct Hout as [(v & ? & _) | [? | ?]]; discriminate.
Qed.

(** X14: no listing names an entity twice, in either mode. *)
Theorem listings_have_distinct_names (s : site) (get_all : bool)
    (order_by : string) (rows : list shared_row) :
  any_value_ok s →
  orderby_ok s →
  get_shared_by_me s get_all order_by = Ok rows
    ∨ get_shared_with_me s get_all order_by = Ok rows →
  NoDup ((λ x, row_name x) <$> rows).
Proof.
  intros Hany Hord.
  assert (NoDup ((λ x, row_name x) <$> shared_by_me_query s)) as Hby.
  { rewrite shared_by_me_query_rows. apply groupby_NoDup; [done|].
    by intros [[[e od] ou] fv] g. }
  assert (NoDup ((λ x, row_name x) <$> shared_with_me_query s)) as Hwith.
  { rewrite shared_with_me_query_rows. apply groupby_NoDup; [done|].
    by intros [[[e d] om] fv] g. }
  assert (∀ (f : shared_row → bool) result query,
            result ≡ₚ query → NoDup ((λ x, row_name x) <$> query) →
            NoDup ((λ x, row_name x) <$> List.filter f result)) as Hfilter.
  { intros f result query Hperm Hnd. rewrite <- Hperm in Hnd. clear Hperm.
    induction result as [|y result IH]; simpl; [apply NoDup_nil_2|].
    rewrite fmap_cons in Hnd. apply NoDup_cons in Hnd as [Hy Hnd].
    destruct (f y); [|by apply IH]. rewrite fmap_cons. apply NoDup_cons.
    split; [|by apply IH]. intros Hin. apply Hy.
    apply list_elem_of_fmap in Hin as (z & Hz & Hin).
    apply elem_of_list_filter in Hin as [Hin _].
    apply list_elem_of_fmap. by exists z. }
  intros [Hget | Hget].
  - unfold get_shared_by_me in Hget. destruct get_all; [by injection Hget as <-|].
    destruct (first_word order_by) as [field|]; [|discriminate].
    destruct (orderby s _ _ _) as [result|] eqn:Ho; [|discriminate].
    injection Hget as <-. eapply Hfilter; [by apply Hord in Ho | done].
  - unfold get_shared_with_me in Hget. destruct get_all; [by injection Hget as <-|].
    destruct (first_word order_by) as [field|]; [|discriminate].
    destruct (orderby s _ _ _) as [result|] eqn:Ho; [|discriminate].
    injection Hget as <-. eapply Hfilter; [by apply Hord in Ho | done].
Qed.

Lemma keep_order_ok (s : site) : orderby s = keep_order → orderby_ok s.
Proof. intros H field desc rows rows'. rewrite H. by intros [= <-]. Qed.

Lemma docs_listed_by_alice :
  get_shared_by_me site_tree_alice false "modified" = Ok [docs_row].
Proof. reflexivity. Qed.

(** Docs, listed for bob, is active. *)
Lemma shared_with_me_rows_reach_user_witness :
  DriveEntity.is_active (row_entity docs_row) = 1.
Proof.
  refine (proj1 (proj2 (shared_with_me_rows_reach_user site_tree_bob false
                          "modified desc" [docs_row] docs_row _ _ docs_listed _))).
  - apply first_value_ok. reflexivity.
  - apply keep_order_ok. reflexivity.
  - in_list.
Defined.

(** Docs, listed for alice as shared by her, is hers. *)
Lemma shared_by_me_rows_owned_and_shared_witness :
  row_owner docs_row = session_user site_tree_alice.
Proof.
  refine (proj1 (proj2 (shared_by_me_rows_owned_and_shared site_tree_alice false
                          "modified" [docs_row] docs_row _ _ docs_listed_by_alice _))).
  - apply first_value_ok. reflexivity.
  - apply keep_order_ok. reflexivity.
  - in_list.
Defined.

Lemma listings_have_distinct_names_witness :
  NoDup ((λ x, row_name x) <$> [docs_row]).
Proof.
  refine (listings_have_distinct_names site_tree_bob false "modified desc" [docs_row]
            _ _ (or_intror docs_listed)).
  - apply first_value_ok. reflexivity.
  - apply keep_order_ok. reflexivity.
Defined.

(** ** What the listings do not miss *)

Lemma groupby_names_row {A B} s (key : A → string) (select : A → list A → B)
    (key' : B → string) rows x0 :
  any_value_ok s →
  (∀ r g, key' (select r g) = key r) →
  x0 ∈ rows →
  ∃ y, y ∈ groupby s key select rows ∧ key' y = key x0.
Proof.
  intros Hany Hsel Hx0.
  destruct (groupby_of_row s key select rows x0 Hx0) as (x & g & Hf & Hy).
  eexists. split; [exact Hy|]. rewrite Hsel.
  pose proof (Hany _ x g) as Hrep. rewrite <- Hf in Hrep.
  by apply list_elem_of_filter in Hrep as [? _].
Qed.

(** X15: in the get_all mode the shared-with-me listing misses
    nothing: every active entity with a share row that reaches the
    signed-in user is listed, under its name. *)
Theorem shared_with_me_lists_every_reaching_share (s : site) (order_by : string)
    (e : DriveEntity.row) (d : DriveDocShare.row) :
  any_value_ok s →
  e ∈ tabDriveEntity s →
  DriveEntity.is_active e = 1 →
  d ∈ tabDriveDocShare s →
  DriveDocShare.share_name d = DriveEntity.name e →
  reaches s d →
  ∃ rows x, get_shared_with_me s true order_by = Ok rows
            ∧ x ∈ rows ∧ row_name x = DriveEntity.name e.
Proof.
  intros Hany He Hact Hd Hn Hreach.
  exists (shared_with_me_query s).
  assert (∃ om fv, (e, d, om, fv) ∈ shared_with_me_rows s) as (om & fv & Hrow).
  { assert ((e, d) ∈ inner_join (tabDriveEntity s) (tabDriveDocShare s)
              (λ e d, sql_eq (Some (DriveDocShare.share_name d)) (Some (DriveEntity.name e))))
      as Hj1 by (apply elem_of_inner_join; by rewrite sql_true_eq).
    assert (∃ om, (e, d, om) ∈ left_join
              (inner_join (tabDriveEntity s) (tabDriveDocShare s)
                 (λ e d, sql_eq (Some (DriveDocShare.share_name d)) (Some (DriveEntity.name e))))
              (tabUserGroupMember s)
              (λ '(_, d) m, sql_eq (Some (UserGroupMember.parent m)) (DriveDocShare.user_name d))
            ∧ ((∃ m, om = Some m ∧ UserGroupMember.user m = session_user s)
               ∨ DriveDocShare.user_name d = Some (session_user s)
               ∨ DriveDocShare.everyone d = 1)) as (om & Hj2 & Hcond).
    { destruct Hreach as [Hu | [Hev | Hgr]].
      - destruct (left_join_total _ (tabUserGroupMember s)
                    (λ '(_, d) m, sql_eq (Some (UserGroupMember.parent m))
                                    (DriveDocShare.user_name d)) (e, d) Hj1) as [om Hom].
        exists om. auto.
      - destruct (left_join_total _ (tabUserGroupMember s)
                    (λ '(_, d) m, sql_eq (Some (UserGroupMember.parent m))
                                    (DriveDocShare.user_name d)) (e, d) Hj1) as [om Hom].
        exists om. auto.
      - apply Exists_exists in Hgr as (m & Hm & Hu & Hp).
        exists (Some m). split; [|left; by exists m].
        apply elem_of_left_join. split; [done|]. split; [done|].
        by apply sql_true_eq_opt_r. }
    destruct (left_join_total _ (tabDriveFavourite s)
                (λ '(e, _, _) f, sql_and
                   (sql_eq (Some (DriveFavourite.entity f)) (Some (DriveEntity.name e)))
                   (sql_eq (Some (DriveFavourite.user f)) (Some (session_user s))))
                (e, d, om) Hj2) as [fv Hfv].
    exists om, fv. unfold shared_with_me_rows. cbv zeta.
    apply elem_of_where. split; [|done].
    rewrite sql_true_and, !sql_true_or, !sql_true_eq, !sql_true_eq_opt.
    split; [done|]. destruct Hcond as [(m & -> & Hu) | [? | ?]]; [|by auto..].
    left. simpl. by rewrite Hu. }
  destruct (groupby_names_row s (λ '(e, _, _, _), DriveEntity.name e)
              (λ '(e, d, _, f) g,
                 {| row_entity := e;
                    row_full_name := None;
                    row_user_image := None;
                    row_read := Some (DriveDocShare.read d);
                    row_write := Some (max_list (DriveDocShare.write d)
                                         ((λ '(_, d', _, _), DriveDocShare.write d') <$> g));
                    row_everyone := Some (DriveDocShare.everyone d);
                    row_share := Some (DriveDocShare.share d);
                    is_favourite := DriveFavourite.entity <$> f |})
              (λ x, row_name x) (shared_with_me_rows s) (e, d, om, fv) Hany)
    as (y & Hy & Hky); [by intros [[[? ?] ?] ?] ? | done |].
  exists y. split; [done|]. split; [|done]. by rewrite shared_with_me_query_rows.
Qed.

Lemma match_total {B} (Q : B → Prop) `{∀ b, Decision (Q b)} (r : list B) :
  ∃ ob, match ob with
        | Some b => b ∈ r ∧ Q b
        | None => ∀ b, b ∈ r → ¬ Q b
        end.
Proof.
  destruct (decide (Exists Q r)) as [Hex | Hno].
  - apply Exists_exists in Hex as (b & Hb & HQ). by exists (Some b).
  - exists None. intros b Hb HQ. apply Hno, Exists_exists. by exists b.
Qed.

(** Report, shared with bob, is in his get_all listing. *)
Lemma shared_with_me_lists_every_reaching_share_witness :
  ∃ rows x, get_shared_with_me site_tree_bob true "modified" = Ok rows
            ∧ x ∈ rows ∧ row_name x = "Report".
Proof.
  refine (shared_with_me_lists_every_reaching_share site_tree_bob "modified"
            (file "Report" "alice" (Some "Docs") 1)
            (grant "s2" "Report" (Some "User") (Some "bob") 1 0 0 0 0) _ _ _ _ _ _).
  - apply first_value_ok. reflexivity.
  - in_list.
  - reflexivity.
  - in_list.
  - reflexivity.
  - left. reflexivity.
Defined.

(** X16: in the get_all mode the shared-by-me listing misses nothing:
    every active entity the signed-in user owns, with a share row that
    names somebody else, everyone or the public, is listed. *)
Theorem shared_by_me_lists_every_outward_share (s : site) (order_by : string)
    (e : DriveEntity.row) (d : DriveDocShare.row) :
  any_value_ok s →
  e ∈ tabDriveEntity s →
  DriveEntity.owner e = session_user s →
  DriveEntity.is_active e = 1 →
  d ∈ tabDriveDocShare s →
  DriveDocShare.share_name d = DriveEntity.name e →
  points_outward s d →
  ∃ rows x, get_shared_by_me s true order_by = Ok rows
            ∧ x ∈ rows ∧ row_name x = DriveEntity.name e.
Proof.
  intros Hany He Ho Hact Hd Hn Hout.
  exists (shared_by_me_query s).
  destruct (match_total (λ u, DriveEntity.owner e = User.email u) (tabUser s)) as [ou Hou].
  destruct (match_total (λ f, DriveFavourite.entity f = DriveEntity.name e
                              ∧ DriveFavourite.user f = session_user s)
              (tabDriveFavourite s)) as [fv Hfv].
  assert ((e, Some d, ou, fv) ∈ shared_by_me_rows s) as Hrow.
  { apply elem_of_shared_by_me_rows. split; [done|]. split; [done|].
    split; [done|]. split; [done|]. split; [done|]. simpl.
    destruct Hout as [(v & ? & ?) | [? | ?]]; [left; by exists v | right; left | right; right];
      congruence. }
  destruct (groupby_names_row s (λ '(e, _, _, _), DriveEntity.name e)
              (λ '(e, d, u, f) (_ : list (DriveEntity.row * option DriveDocShare.row
                                          * option User.row * option DriveFavourite.row)),
                 {| row_entity := e;
                    row_full_name := u ≫= User.full_name;
                    row_user_image := u ≫= User.user_image;
                    row_read := DriveDocShare.read <$> d;
                    row_write := DriveDocShare.write <$> d;
                    row_everyone := DriveDocShare.everyone <$> d;
                    row_share := DriveDocShare.share <$> d;
                    is_favourite := DriveFavourite.entity <$> f |})
              (λ x, row_name x) (shared_by_me_rows s) (e, Some d, ou, fv) Hany)
    as (y & Hy & Hky); [by intros [[[? ?] ?] ?] ? | done |].
  exists y. split; [done|]. split; [|done]. by rewrite shared_by_me_query_rows.
Qed.

Lemma shared_by_me_lists_every_outward_share_witness :
  ∃ rows x, get_shared_by_me site_tree_alice true "modified" = Ok rows
            ∧ x ∈ rows ∧ row_name x = "Report".
Proof.
  refine (shared_by_me_lists_every_outward_share site_tree_alice "modified"
            (file "Report" "alice" (Some "Docs") 1)
            (grant "s2" "Report" (Some "User") (Some "bob") 1 0 0 0 0) _ _ _ _ _ _ _).
  - apply first_value_ok. reflexivity.
  - in_list.
  - reflexivity.
  - reflexivity.
  - in_list.
  - reflexivity.
  - left. exists "bob". split; [reflexivity | discriminate].
Defined.

(** X17: the write column of a shared-with-me row is the most
    permissive one: it is the write flag of a share row of the entity that
    reaches the signed-in user, and no such row has a larger one. *)
Theorem shared_with_me_write_is_maximal (s : site) (get_all : bool)
    (order_by : string) (rows : list shared_row) (x : shared_row) :
  any_value_ok s →
  orderby_ok s →
  get_shared_with_me s get_all order_by = Ok rows →
  x ∈ rows →
  ∃ w, row_write x = Some w
       ∧ (∃ d, d ∈ tabDriveDocShare s ∧ DriveDocShare.share_name d = row_name x
               ∧ reaches s d ∧ DriveDocShare.write d = w)
       ∧ (∀ d, d ∈ tabDriveDocShare s → DriveDocShare.share_name d = row_name x →
               reaches s d → DriveDocShare.write d ≤ w).
Proof.
  intros Hany Hord Hget Hx.
  apply (shared_with_me_from_query s get_all order_by rows x Hord Hget) in Hx.
  rewrite shared_with_me_query_rows in Hx.
  apply groupby_from_row in Hx as ([[[e d] om] fv] & g & Hr & Hrg & Hg & ->); [|done].
  simpl. eexists. split; [reflexivity|].
  assert (∀ e' d' om' fv', (e', d', om', fv') ∈ shared_with_me_rows s →
            reaches s d') as Hreach.
  { intros e' d' om' fv' H.
    apply elem_of_shared_with_me_rows in H as (_ & _ & _ & Hm & _ & _ & Hre).
    unfold reaches. destruct Hre as [(m & -> & Hu) | [? | ?]]; [|by auto..].
    right. right. apply Exists_exists. exists m. by destruct Hm. }
  split.
  - pose proof (max_list_elem (DriveDocShare.write d)
                  ((λ '(_, d', _, _), DriveDocShare.write d') <$> g)) as Hmax.
    apply elem_of_cons in Hmax as [Hmax | Hmax].
    + exists d. rewrite Hmax.
      pose proof (Hreach _ _ _ _ Hr).
      apply elem_of_shared_with_me_rows in Hr as (_ & ? & ? & _). done.
    + apply list_elem_of_fmap in Hmax as ([[[e' d'] om'] fv'] & Hw & Hin).
      rewrite Hg in Hin. apply list_elem_of_filter in Hin as [Hk Hin]. simpl in Hk.
      exists d'. pose proof (Hreach _ _ _ _ Hin).
      apply elem_of_shared_with_me_rows in Hin as (_ & ? & ? & _).
      split; [done|]. split; [congruence|]. done.
  - intros d' Hd' Hn' Hre'.
    apply elem_of_shared_with_me_rows in Hr as (He & _ & _ & _ & _ & Hact & _).
    assert (∃ om' fv', (e, d', om', fv') ∈ shared_with_me_rows s) as (om' & fv' & Hrow).
    { destruct (match_total (λ f, DriveFavourite.entity f = DriveEntity.name e
                                  ∧ DriveFavourite.user f = session_user s)
                  (tabDriveFavourite s)) as [fv' Hfv'].
      destruct Hre' as [Hu | [Hev | Hgr]].
      - destruct (match_total (λ m, Some (UserGroupMember.parent m) = DriveDocShare.user_name d')
                    (tabUserGroupMember s)) as [om' Hom'].
        exists om', fv'. apply elem_of_shared_with_me_rows.
        split; [done|]. split; [done|]. split; [exact Hn'|]. split; [exact Hom'|].
        split; [exact Hfv'|]. split; [done|]. auto.
      - destruct (match_total (λ m, Some (UserGroupMember.parent m) = DriveDocShare.user_name d')
                    (tabUserGroupMember s)) as [om' Hom'].
        exists om', fv'. apply elem_of_shared_with_me_rows.
        split; [done|]. split; [done|]. split; [exact Hn'|]. split; [exact Hom'|].
        split; [exact Hfv'|]. split; [done|]. auto.
      - apply Exists_exists in Hgr as (m & Hm & Hu & Hp).
        exists (Some m), fv'. apply elem_of_shared_with_me_rows.
        split; [done|]. split; [done|]. split; [exact Hn'|]. split; [done|].
        split; [exact Hfv'|]. split; [done|]. left. by exists m. }
    apply max_list_ge. apply list_elem_of_further.
    apply list_elem_of_fmap. exists (e, d', om', fv'). split; [done|].
    rewrite Hg. by apply list_elem_of_filter.
Qed.

Lemma scenario_listed :
  get_shared_with_me site_scenario true "modified" = Ok [scenario_row].
Proof. reflexivity. Qed.

(** On [site_scenario] bob's own row is read-only, the row of his group
    lets him write, and the listing shows write. *)
Lemma shared_with_me_write_is_maximal_witness :
  ∃ w, row_write scenario_row = Some w
       ∧ (∃ d, d ∈ tabDriveDocShare site_scenario
               ∧ DriveDocShare.share_name d = row_name scenario_row
               ∧ reaches site_scenario d ∧ DriveDocShare.write d = w)
       ∧ (∀ d, d ∈ tabDriveDocShare site_scenario →
               DriveDocShare.share_name d = row_name scenario_row →
               reaches site_scenario d → DriveDocShare.write d ≤ w).
Proof.
  refine (shared_with_me_write_is_maximal site_scenario true "modified"
            [scenario_row] scenario_row _ _ scenario_listed _).
  - apply first_value_ok. reflexivity.
  - apply keep_order_ok. reflexivity.
  - in_list.
Defined.

(** ** The sorted mode against the get_all mode *)

(** X18: the sorted shared-with-me listing holds exactly the rows of
    the get_all listing that the signed-in user does not own and whose
    parent is not the name of any row of the get_all listing; so a row is
    dropped when its parent is named there, even if that parent is dropped
    too because the user owns it. *)
Theorem sorted_shared_with_me_is (s : site) (order_by : string)
    (all rows : list shared_row) (x : shared_row) :
  orderby_ok s →
  get_shared_with_me s true order_by = Ok all →
  get_shared_with_me s false order_by = Ok rows →
  x ∈ rows
  ↔ x ∈ all
    ∧ row_owner x ≠ session_user s
    ∧ ∀ y, y ∈ all → row_parent x ≠ Some (row_name y).
Proof.
  intros Hord [= <-] Hget.
  exact (shared_with_me_sorted_elem s order_by rows x Hord Hget).
Qed.

(** On [site_nested] Report is shared with bob, but it lies in bob's own
    folder Mine, which is shared with everyone: the sorted listing shows
    neither. *)
Lemma sorted_shared_with_me_is_witness :
  get_shared_with_me site_nested false "modified" = Ok []
  ∧ ∀ x, x ∈ @nil shared_row
         ↔ x ∈ shared_with_me_query site_nested
           ∧ row_owner x ≠ session_user site_nested
           ∧ ∀ y, y ∈ shared_with_me_query site_nested →
                  row_parent x ≠ Some (row_name y).
Proof.
  split; [reflexivity|]. intros x.
  refine (sorted_shared_with_me_is site_nested "modified" _ [] x _ eq_refl eq_refl).
  apply keep_order_ok. reflexivity.
Defined.

(** X19: the sorted shared-by-me listing holds exactly the rows of the
    get_all listing whose parent is not the name of any row of the get_all
    listing. *)
Theorem sorted_shared_by_me_is (s : site) (order_by : string)
    (all rows : list shared_row) (x : shared_row) :
  orderby_ok s →
  get_shared_by_me s true order_by = Ok all →
  get_shared_by_me s false order_by = Ok rows →
  x ∈ rows
  ↔ x ∈ all ∧ ∀ y, y ∈ all → row_parent x ≠ Some (row_name y).
Proof.
  intros Hord [= <-] Hget.
  exact (shared_by_me_sorted_elem s order_by rows x Hord Hget).
Qed.

Lemma sorted_shared_by_me_is_witness :
  docs_row ∈ [docs_row]
  ↔ docs_row ∈ shared_by_me_query site_tree_alice
    ∧ ∀ y, y ∈ shared_by_me_query site_tree_alice →
           row_parent docs_row ≠ Some (row_name y).
Proof.
  refine (sorted_shared_by_me_is site_tree_alice "modified" _ [docs_row] docs_row
            _ eq_refl docs_listed_by_alice).
  apply keep_order_ok. reflexivity.
Defined.

(** ** The order_by argument *)



(** ** Dictionaries keyed by name *)

Lemma setitem_here k v items : (k, v) ∈ setitem k v items.
Proof.
  induction items as [|[k' v'] items IH]; simpl; [apply list_elem_of_here|].
  case_decide; [apply list_elem_of_here | by apply list_elem_of_further].
Qed.

Lemma setitem_other k v k' v' items :
  k ≠ k' → (k, v) ∈ items → (k, v) ∈ setitem k' v' items.
Proof.
  intros Hne. induction items as [|[k0 v0] items IH]; simpl;
    [by intros ?%not_elem_of_nil|].
  intros Hin. apply elem_of_cons in Hin as [[= <- <-] | Hin].
  - rewrite decide_False by congruence. apply list_elem_of_here.
  - case_decide; apply list_elem_of_further; auto.
Qed.

Lemma setitem_from k v k' v' items :
  (k, v) ∈ setitem k' v' items → (k = k' ∧ v = v') ∨ (k, v) ∈ items.
Proof.
  induction items as [|[k0 v0] items IH]; simpl.
  - intros [= -> ->]%list_elem_of_singleton. by left.
  - case_decide as Hk.
    + intros [[= -> ->] | Hin]%elem_of_cons; [by left|].
      right. by apply list_elem_of_further.
    + intros [[= -> ->] | Hin]%elem_of_cons; [right; apply list_elem_of_here|].
      destruct (IH Hin) as [? | ?]; [by left|]. right. by apply list_elem_of_further.
Qed.

Lemma setitem_keys k v items k0 :
  k0 ∈ (fst <$> setitem k v items) ↔ k0 = k ∨ k0 ∈ (fst <$> items).
Proof.
  rewrite !list_elem_of_fmap. split.
  - intros ([k1 v1] & -> & Hin). apply setitem_from in Hin as [[-> ->] | Hin]; [by left|].
    right. by exists (k1, v1).
  - intros [-> | ([k1 v1] & -> & Hin)].
    + exists (k, v). split; [done | apply setitem_here].
    + simpl. destruct (decide (k1 = k)) as [-> | Hne].
      * exists (k, v). split; [done | apply setitem_here].
      * exists (k1, v1). split; [done|]. by apply setitem_other.
Qed.

Lemma setitem_NoDup k v items :
  NoDup (fst <$> items) → NoDup (fst <$> setitem k v items).
Proof.
  induction items as [|[k' v'] items IH]; simpl.
  - intros _. apply NoDup_singleton.
  - rewrite !NoDup_cons. intros [Hk' Hnd]. case_decide as Hk.
    + subst. simpl. by rewrite NoDup_cons.
    + simpl. rewrite NoDup_cons. split; [|by apply IH].
      rewrite setitem_keys. intros [? | ?]; [congruence | done].
Qed.

Lemma by_name_named rows items items' :
  named items → by_name rows items = Some items' → named items'.
Proof.
  revert items. induction rows as [|x rows IH]; intros items Hn; simpl.
  - by intros [= <-].
  - destruct (x !! "name") as [k|] eqn:Hk; [|discriminate]. apply IH.
    destruct Hn as [Hnd Hname]. split; [by apply setitem_NoDup|].
    intros k0 v0 Hin. apply setitem_from in Hin as [[-> ->] | Hin]; [done | by apply Hname].
Qed.

Lemma by_name_keys rows items items' k :
  by_name rows items = Some items' →
  k ∈ (fst <$> items') ↔ k ∈ (fst <$> items) ∨ ∃ x, x ∈ rows ∧ x !! "name" = Some k.
Proof.
  revert items. induction rows as [|x rows IH]; intros items; simpl.
  - intros [= <-]. split; [by left|]. intros [? | (x & Hx & _)]; [done|].
    by apply not_elem_of_nil in Hx.
  - destruct (x !! "name") as [k'|] eqn:Hk; [|discriminate]. intros Hby.
    rewrite (IH _ Hby), setitem_keys. split.
    + intros [[-> | ?] | (x' & Hx' & ?)]; [right | by left | right].
      * exists x. split; [apply list_elem_of_here | done].
      * exists x'. split; [by apply list_elem_of_further | done].
    + intros [? | (x' & Hx' & Hn)]; [by left; right|].
      apply elem_of_cons in Hx' as [-> | Hx'].
      * left. left. congruence.
      * right. by exists x'.
Qed.

Lemma by_name_from rows items items' k v :
  by_name rows items = Some items' →
  (k, v) ∈ items' → (k, v) ∈ items ∨ v ∈ rows.
Proof.
  revert items. induction rows as [|x rows IH]; intros items; simpl.
  - intros [= <-]. by left.
  - destruct (x !! "name") as [k'|] eqn:Hk; [|discriminate]. intros Hby Hin.
    destruct (IH _ Hby Hin) as [Hset | Hrows].
    + apply setitem_from in Hset as [[-> ->] | ?]; [|by left].
      right. apply list_elem_of_here.
    + right. by apply list_elem_of_further.
Qed.

(** A row stays in the dictionary when no later row has its name. *)
Lemma by_name_keeps rows items items' k v :
  by_name rows items = Some items' →
  (k, v) ∈ items →
  (∀ x, x ∈ rows → x !! "name" ≠ Some k) →
  (k, v) ∈ items'.
Proof.
  revert items. induction rows as [|x rows IH]; intros items; simpl.
  - by intros [= <-].
  - destruct (x !! "name") as [k'|] eqn:Hk; [|discriminate]. intros Hby Hin Hlater.
    apply (IH _ Hby).
    + apply setitem_other; [|done]. intros ->.
      by apply (Hlater x (list_elem_of_here _ _)).
    + intros x' Hx'. by apply Hlater, list_elem_of_further.
Qed.

Lemma by_name_app rows1 rows2 items items' :
  by_name (rows1 ++ rows2)%list items = Some items' →
  ∃ items1, by_name rows1 items = Some items1 ∧ by_name rows2 items1 = Some items'.
Proof.
  revert items. induction rows1 as [|x rows1 IH]; intros items; simpl.
  - intros H. by exists items.
  - destruct (x !! "name") as [k|]; [|discriminate]. apply IH.
Qed.

Lemma by_name_is_Some rows items :
  is_Some (by_name rows items) ↔ ∀ x, x ∈ rows → is_Some (x !! "name").
Proof.
  revert items. induction rows as [|x rows IH]; intros items; simpl.
  - split; [|by eauto]. intros _ x Hx. by apply not_elem_of_nil in Hx.
  - destruct (x !! "name") as [k|] eqn:Hk.
    + rewrite IH. split.
      * intros H x' [-> | Hx']%elem_of_cons; [by eauto | by apply H].
      * intros H x' Hx'. by apply H, list_elem_of_further.
    + split; [by intros [? ?]|]. intros H.
      destruct (H x (list_elem_of_here _ _)) as [? ?]. congruence.
Qed.

(** ** Rows restricted to fields *)

Lemma select_fields_lookup fields columns row f :
  select_fields fields columns = Some row →
  row !! f = if decide (f ∈ fields) then columns !! f else None.
Proof.
  revert row. induction fields as [|f' fields IH]; intros row; cbn [select_fields].
  - intros [= <-]. case_decide as H; [by apply not_elem_of_nil in H | done].
  - destruct (columns !! f') as [v|] eqn:Hv; [|discriminate].
    destruct (select_fields fields columns) as [row'|]; [|discriminate].
    intros [= <-]. destruct (decide (f = f')) as [-> | Hne].
    + rewrite lookup_insert_eq.
      destruct (decide (f' ∈ f' :: fields)) as [_ | Hn]; [by rewrite Hv|].
      exfalso. apply Hn, list_elem_of_here.
    + rewrite lookup_insert_ne by done. rewrite (IH row' eq_refl).
      destruct (decide (f ∈ fields)) as [Hin | Hn],
               (decide (f ∈ f' :: fields)) as [Hin' | Hn']; try done.
      * exfalso. by apply Hn', list_elem_of_further.
      * exfalso. apply elem_of_cons in Hin' as [? | ?]; done.
Qed.

Lemma entity_columns_names e f :
  is_Some (entity_columns e !! f) ↔ f ∈ entity_column_names.
Proof.
  split.
  - intros Hs. destruct (decide (f ∈ entity_column_names)) as [? | Hn]; [done|].
    unfold entity_columns in Hs. rewrite not_elem_of_list_to_map_1 in Hs by exact Hn.
    by destruct Hs.
  - unfold entity_column_names. intros Hin.
    repeat (apply elem_of_cons in Hin as [-> | Hin]; [by eexists|]).
    by apply not_elem_of_nil in Hin.
Qed.

Lemma select_fields_is_Some fields e :
  forallb (λ f, bool_decide (f ∈ entity_column_names)) fields = true →
  is_Some (select_fields fields (entity_columns e)).
Proof.
  induction fields as [|f fields IH]; simpl; [by eauto|].
  intros [Hf Hfs]%andb_true_iff. apply bool_decide_eq_true in Hf.
  apply (entity_columns_names e) in Hf as [v Hv]. rewrite Hv.
  destruct (IH Hfs) as [row ->]. by eauto.
Qed.

(** ** [get_all_my_entities] *)

Lemma elem_of_my_entities_rows s home readable e :
  e ∈ my_entities_rows s home readable
  ↔ e ∈ tabDriveEntity s
    ∧ DriveEntity.is_active e = 1
    ∧ DriveEntity.owner e = session_user s
    ∧ DriveEntity.name e ≠ home
    ∧ readable e = true.
Proof.
  unfold my_entities_rows.
  rewrite elem_of_list_filter, !andb_true_iff, negb_true_iff, Z.eqb_eq,
    bool_decide_eq_true, bool_decide_eq_false.
  tauto.
Qed.

Lemma shared_with_me_dict_name x :
  shared_with_me_dict x !! "name" = Some (VStr (row_name x)).
Proof. reflexivity. Qed.

Lemma by_name_last rows items items' k :
  by_name rows items = Some items' →
  (∃ x, x ∈ rows ∧ x !! "name" = Some k) →
  ∃ x, x ∈ rows ∧ x !! "name" = Some k ∧ (k, x) ∈ items'.
Proof.
  revert items. induction rows as [|x rows IH]; intros items; simpl.
  - intros _ (x & Hx & _). by apply not_elem_of_nil in Hx.
  - destruct (x !! "name") as [k'|] eqn:Hk; [|discriminate]. intros Hby Hex.
    destruct (decide (Exists (λ x', x' !! "name" = Some k) rows)) as [Hlater | Hnone].
    + apply Exists_exists in Hlater as (x' & Hx' & Hn').
      destruct (IH _ Hby) as (y & Hy & Hyn & Hin); [by exists x'|].
      exists y. split; [by apply list_elem_of_further | done].
    + destruct Hex as (x' & Hx' & Hn'). apply elem_of_cons in Hx' as [-> | Hx'].
      * exists x. split; [apply list_elem_of_here|]. split; [done|].
        assert (k' = k) as -> by congruence.
        apply (by_name_keeps rows _ items' k x Hby); [apply setitem_here|].
        intros y Hy Hyn. apply Hnone, Exists_exists. by exists y.
      * exfalso. apply Hnone, Exists_exists. by exists x'.
Qed.

(** What a successful call is made of. *)
Lemma get_all_my_entities_inl s get_user_directory readable fields l :
  get_all_my_entities s get_user_directory readable fields = inl l →
  ∃ home fs items,
    get_user_directory = Ok home
    ∧ forallb (λ f, bool_decide (f ∈ entity_column_names)) fs = true
    ∧ by_name (app (shared_with_me_dict <$> shared_with_me_query s)
                   (omap (λ e, select_fields fs (entity_columns e))
                         (my_entities_rows s home readable))) []
      = Some items
    ∧ l = snd <$> items.
Proof.
  unfold get_all_my_entities.
  destruct get_user_directory as [home|x]; [|discriminate].
  set (fs := match fields with
             | Some ((_ :: _) as fields0) => fields0
             | _ => default_fields
             end).
  destruct (forallb _ fs) eqn:Hvalid; simpl; [|discriminate].
  destruct (by_name _ []) as [items|] eqn:Hby; [|discriminate].
  intros [= <-]. by exists home, fs, items.
Qed.

Lemma named_nil : named [].
Proof. split; [apply NoDup_nil_2|]. intros k v Hin. by apply not_elem_of_nil in Hin. Qed.

Lemma my_row_name fs e row k :
  select_fields fs (entity_columns e) = Some row →
  row !! "name" = Some k → k = VStr (DriveEntity.name e).
Proof.
  intros Hsel Hk. rewrite (select_fields_lookup fs _ row "name" Hsel) in Hk.
  destruct (decide ("name" ∈ fs)); [|discriminate].
  change (entity_columns e !! "name") with (Some (VStr (DriveEntity.name e))) in Hk.
  congruence.
Qed.

(** X21: the rows [get_all_my_entities] returns all carry a name, and
    no two of them carry the same one. *)
Theorem all_my_entities_distinct_names (s : site) (get_user_directory : result string)
    (readable : DriveEntity.row → bool) (fields : option (list string))
    (l : list dict) :
  get_all_my_entities s get_user_directory readable fields = inl l →
  NoDup ((λ y : dict, y !! "name") <$> l)
  ∧ ∀ y, y ∈ l → is_Some (y !! "name").
Proof.
  intros Hget.
  apply get_all_my_entities_inl in Hget as (home & fs & items & _ & _ & Hby & ->).
  destruct (by_name_named _ _ _ named_nil Hby) as [Hnd Hname].
  split.
  - assert ((λ y : dict, y !! "name") <$> (snd <$> items)
            = Some <$> (fst <$> items)) as ->.
    { rewrite <- !list_fmap_compose. apply list_fmap_ext.
      intros i [k v] Hin. simpl. apply Hname. by eapply list_elem_of_lookup_2. }
    apply NoDup_fmap_2; [apply _ | done].
  - intros y Hy. apply list_elem_of_fmap in Hy as ([k v] & -> & Hin).
    simpl. rewrite (Hname k v Hin). by eauto.
Qed.

Lemma mine_entities_returned :
  get_all_my_entities site_mine (Ok "Home") everything_readable None = inl mine_entities.
Proof. reflexivity. Qed.

Lemma all_my_entities_distinct_names_witness :
  NoDup ((λ y : dict, y !! "name") <$> mine_entities).
Proof.
  refine (proj1 (all_my_entities_distinct_names site_mine (Ok "Home")
                   everything_readable None mine_entities mine_entities_returned)).
Defined.

(** X22: the names [get_all_my_entities] returns are those of the
    get_all shared-with-me listing together with those of the active
    entities the user owns that [frappe.db.get_list] hands out, the home
    directory left out of the latter. *)
Theorem all_my_entities_names (s : site) (home : string)
    (readable : DriveEntity.row → bool) (fields : option (list string))
    (l : list dict) (n : string) :
  get_all_my_entities s (Ok home) readable fields = inl l →
  (∃ y, y ∈ l ∧ y !! "name" = Some (VStr n))
  ↔ (∃ x, x ∈ shared_with_me_query s ∧ row_name x = n)
    ∨ (∃ e, e ∈ tabDriveEntity s
            ∧ DriveEntity.is_active e = 1
            ∧ DriveEntity.owner e = session_user s
            ∧ DriveEntity.name e ≠ home
            ∧ readable e = true
            ∧ DriveEntity.name e = n).
Proof.
  intros Hget.
  apply get_all_my_entities_inl in Hget
    as (home' & fs & items & [= <-] & Hvalid & Hby & ->).
  destruct (by_name_named _ _ _ named_nil Hby) as [Hnd Hname].
  pose proof (proj1 (by_name_is_Some _ []) (ex_intro _ items Hby)) as Hall.
  assert ((∃ y : dict, y ∈ snd <$> items ∧ y !! "name" = Some (VStr n))
          ↔ VStr n ∈ (fst <$> items)) as ->.
  { rewrite list_elem_of_fmap. split.
    - intros (y & Hy & Hn). apply list_elem_of_fmap in Hy as ([k v] & -> & Hin).
      exists (k, v). split; [|done]. simpl in *. rewrite (Hname k v Hin) in Hn. congruence.
    - intros ([k v] & Hk & Hin). simpl in Hk. subst k. exists v.
      split; [|by apply Hname]. apply list_elem_of_fmap. by exists (VStr n, v). }
  rewrite (by_name_keys _ [] items (VStr n) Hby). split.
  - intros [Hnil | (x & Hx & Hn)]; [by apply not_elem_of_nil in Hnil|].
    apply elem_of_app in Hx as [Hx | Hx].
    + left. apply list_elem_of_fmap in Hx as (r & -> & Hr).
      rewrite shared_with_me_dict_name in Hn. exists r. split; [done | congruence].
    + right. apply list_elem_of_omap in Hx as (e & He & Hsel).
      pose proof (my_row_name fs e x _ Hsel Hn) as [= ->].
      apply elem_of_my_entities_rows in He as (? & ? & ? & ? & ?). by exists e.
  - intros [(r & Hr & <-) | (e & He & Hact & Ho & Hh & Hre & <-)]; right.
    + exists (shared_with_me_dict r). split; [|done].
      apply elem_of_app. left. by apply list_elem_of_fmap_2.
    + destruct (select_fields_is_Some fs e Hvalid) as [row Hrow].
      assert (row ∈ omap (λ e, select_fields fs (entity_columns e))
                         (my_entities_rows s home readable)) as Hin.
      { apply list_elem_of_omap. exists e. split; [|done].
        by apply elem_of_my_entities_rows. }
      exists row. split; [apply elem_of_app; by right|].
      destruct (Hall row) as [k Hk]; [apply elem_of_app; by right|].
      by rewrite Hk, (my_row_name fs e row k Hrow Hk).
Qed.

(** Home, bob's home directory, is not among the names returned. *)
Lemma all_my_entities_names_witness :
  (∃ y, y ∈ mine_entities ∧ y !! "name" = Some (VStr "Home"))
  ↔ (∃ x, x ∈ shared_with_me_query site_mine ∧ row_name x = "Home")
    ∨ (∃ e, e ∈ tabDriveEntity site_mine
            ∧ DriveEntity.is_active e = 1
            ∧ DriveEntity.owner e = session_user site_mine
            ∧ DriveEntity.name e ≠ "Home"
            ∧ everything_readable e = true
            ∧ DriveEntity.name e = "Home").
Proof.
  refine (all_my_entities_names site_mine "Home" everything_readable None
            mine_entities "Home" mine_entities_returned).
Defined.

(** X23: a row returned under the name of an entity the user owns is
    the row of an owned entity, restricted to the fields asked for, even
    when a shared-with-me row of that name exists: it holds only columns of
    the entity and none of the share columns. *)
Theorem owned_row_replaces_shared_row (s : site) (home : string)
    (readable : DriveEntity.row → bool) (fields : option (list string))
    (l : list dict) (y : dict) (e : DriveEntity.row) :
  get_all_my_entities s (Ok home) readable fields = inl l →
  y ∈ l →
  e ∈ my_entities_rows s home readable →
  y !! "name" = Some (VStr (DriveEntity.name e)) →
  ∃ e', e' ∈ my_entities_rows s home readable
        ∧ DriveEntity.name e' = DriveEntity.name e
        ∧ (∀ f v, y !! f = Some v → entity_columns e' !! f = Some v)
        ∧ y !! "read" = None ∧ y !! "write" = None
        ∧ y !! "share" = None ∧ y !! "everyone" = None.
Proof.
  intros Hget Hy He Hyn.
  apply get_all_my_entities_inl in Hget
    as (home' & fs & items & [= <-] & Hvalid & Hby & ->).
  destruct (by_name_named _ _ _ named_nil Hby) as [Hnd Hname].
  pose proof (proj1 (by_name_is_Some _ []) (ex_intro _ items Hby)) as Hall.
  apply list_elem_of_fmap in Hy as ([k v] & -> & Hin). simpl in *.
  assert (k = VStr (DriveEntity.name e)) as -> by (rewrite (Hname k v Hin) in Hyn; congruence).
  apply by_name_app in Hby as (items1 & _ & Hby2).
  destruct (select_fields_is_Some fs e Hvalid) as [row Hrow].
  assert (row ∈ omap (λ e, select_fields fs (entity_columns e))
                     (my_entities_rows s home readable)) as Hrin
    by (apply list_elem_of_omap; by exists e).
  destruct (Hall row) as [k Hk]; [apply elem_of_app; by right|].
  pose proof (my_row_name fs e row k Hrow Hk) as ->.
  destruct (by_name_last _ _ _ (VStr (DriveEntity.name e)) Hby2)
    as (x & Hx & Hxn & Hxin); [by exists row|].
  assert (v = x) as ->.
  { pose proof (NoDup_fmap_eq fst items _ _ Hnd Hin Hxin eq_refl) as Heq. congruence. }
  apply list_elem_of_omap in Hx as (e' & He' & Hsel).
  pose proof (my_row_name fs e' x _ Hsel Hyn) as [= Hn].
  exists e'. split; [done|]. split; [done|].
  assert (∀ f, f ∉ entity_column_names → x !! f = None) as Hnocol.
  { intros f Hf. rewrite (select_fields_lookup fs _ x f Hsel).
    destruct (decide (f ∈ fs)); [|done].
    destruct (entity_columns e' !! f) as [v'|] eqn:Hv; [|done].
    exfalso. apply Hf, (entity_columns_names e' f). by eauto. }
  split.
  - intros f v' Hf. rewrite (select_fields_lookup fs _ x f Hsel) in Hf.
    by destruct (decide (f ∈ fs)).
  - repeat split; apply Hnocol; intros H;
      repeat (apply elem_of_cons in H as [H | H]; [discriminate H|]);
      by apply not_elem_of_nil in H.
Qed.

(** On [site_mine] the folder Mine is bob's own and shared with everyone:
    the row returned for it carries no read flag. *)
Lemma owned_row_replaces_shared_row_witness :
  ∃ y, y ∈ mine_entities ∧ y !! "name" = Some (VStr "Mine") ∧ y !! "read" = None.
Proof.
  exists (default ∅ (head mine_entities)).
  assert (default ∅ (head mine_entities) ∈ mine_entities) as Hin
    by apply list_elem_of_here.
  split; [exact Hin|]. split; [reflexivity|].
  destruct (owned_row_replaces_shared_row site_mine "Home" everything_readable None
              mine_entities (default ∅ (head mine_entities))
              (folder "Mine" "bob" (Some "Home") 1)
              mine_entities_returned Hin (list_elem_of_here _ _) eq_refl)
    as (_ & _ & _ & _ & Hr & _).
  exact Hr.
Defined.

(** X24: when fields are asked for and [name] is not among them, the
    call raises KeyError as soon as the user owns one entity that
    qualifies. *)
Theorem fields_without_name_raise (s : site) (home : string)
    (readable : DriveEntity.row → bool) (f : string) (fields : list string)
    (e : DriveEntity.row) :
  "name" ∉ f :: fields →
  (∀ f', f' ∈ f :: fields → f' ∈ entity_column_names) →
  e ∈ my_entities_rows s home readable →
  get_all_my_entities s (Ok home) readable (Some (f :: fields)) = inr KeyError.
Proof.
  intros Hname Hcols He. unfold get_all_my_entities.
  assert (forallb (λ f, bool_decide (f ∈ entity_column_names)) (f :: fields) = true)
    as Hvalid.
  { apply forallb_forall. intros f' Hf'. apply bool_decide_eq_true, Hcols.
    by apply list_elem_of_In. }
  rewrite Hvalid. cbn [negb].
  destruct (by_name _ []) as [items|] eqn:Hby; [|done]. exfalso.
  pose proof (proj1 (by_name_is_Some _ []) (ex_intro _ items Hby)) as Hall.
  destruct (select_fields_is_Some (f :: fields) e Hvalid) as [row Hrow].
  destruct (Hall row) as [k Hk].
  { apply elem_of_app. right. apply list_elem_of_omap. by exists e. }
  rewrite (select_fields_lookup _ _ row "name" Hrow) in Hk.
  by rewrite decide_False in Hk.
Qed.

Lemma fields_without_name_raise_witness :
  get_all_my_entities site_mine (Ok "Home") everything_readable (Some ["title"])
  = inr KeyError.
Proof.
  refine (fields_without_name_raise site_mine "Home" everything_readable "title" []
            (folder "Mine" "bob" (Some "Home") 1) _ _ _).
  - intros H. apply list_elem_of_singleton in H. discriminate H.
  - intros f' H. apply list_elem_of_singleton in H as ->. in_list.
  - apply list_elem_of_here.
Defined.
